(** * voice-meet-server: room registry, signalling relay, playback clock,
      byte-range media server and asset janitor

    Shallow embedding of [server/enhanced-server.js] (the Socket.IO server)
    and of the plain WebSocket signalling server, followed by the properties
    of the specification that concern them.

    Conventions of the embedding.
    - The four global objects [rooms], [videoStates], [micStates] and
      [activeStreams] are finite maps keyed by the room id; room ids, user
      names and socket ids are strings.  (Keys that collide with properties
      of [Object.prototype] are outside the model.)
    - The file system, the Socket.IO adapter (which socket sits in which
      Socket.IO room), the set of read streams on which [destroy()] ran and
      the pending timers are explicit components of the [World].
    - [Date.now()] is a parameter [now : Z] (milliseconds) of every handler
      that reads the clock.
    - JavaScript integers are [Z]; [NaN] is [None] in [JsNum].  Playback
      positions (seconds, fractional) are exact rationals [Q].
    - A handler returns the new world together with the messages it emitted,
      in emission order; a handler that can throw returns an [Outcome].
    - The handlers of a connection read its closure variables [roomId] and
      [userName] from a [Conn]; they are modelled for a connection on which
      [join] has set them. *)

From Stdlib Require Import ZArith QArith Lia Ascii String DecimalString.
From Stdlib Require Import DecimalPos.
From stdpp Require Import gmap strings list fin_maps.

Close Scope Q_scope.
Open Scope Z_scope.

(* ===================================================================== *)
(** ** JavaScript primitives used by the handlers                         *)
(* ===================================================================== *)

Module Js.

(** A JavaScript number restricted to the integers, [None] being [NaN]. *)
Definition JsNum : Type := option Z.

Definition sub (a b : JsNum) : JsNum :=
  match a, b with Some x, Some y => Some (x - y) | _, _ => None end.

Definition add (a b : JsNum) : JsNum :=
  match a, b with Some x, Some y => Some (x + y) | _, _ => None end.

(** Truthiness of a string: every string but the empty one. *)
Definition truthy (s : string) : bool := negb (String.eqb s EmptyString).

Fixpoint dropn (n : nat) (s : string) : string :=
  match n, s with
  | O, _ => s
  | S n', String _ s' => dropn n' s'
  | S _, EmptyString => EmptyString
  end.

(** [s.replace(/pat/, )] with the empty string as replacement, for a
    literal pattern: the first occurrence of [pat] is removed, wherever it
    stands. *)
Fixpoint removeFirst (pat s : string) {struct s} : string :=
  if String.prefix pat s then dropn (String.length pat) s
  else match s with
       | EmptyString => EmptyString
       | String c s' => String c (removeFirst pat s')
       end.

(** [s.split(sep)] for a one-character separator. *)
Fixpoint split (sep : ascii) (s : string) : list string :=
  match s with
  | EmptyString => [EmptyString]
  | String c s' =>
      if Ascii.eqb c sep then EmptyString :: split sep s'
      else match split sep s' with
           | [] => [String c EmptyString]
           | p :: ps => String c p :: ps
           end
  end.

(** White space skipped by [parseInt] (the ASCII part of it). *)
Definition isWhite (c : ascii) : bool :=
  let n := nat_of_ascii c in
  (Nat.eqb n 32 || Nat.eqb n 9 || Nat.eqb n 10 || Nat.eqb n 11
   || Nat.eqb n 12 || Nat.eqb n 13)%bool.

Fixpoint trimStart (s : string) : string :=
  match s with
  | String c s' => if isWhite c then trimStart s' else s
  | EmptyString => EmptyString
  end.

Definition digitVal (c : ascii) : option Z :=
  let n := Z.of_nat (nat_of_ascii c) in
  if (48 <=? n) && (n <=? 57) then Some (n - 48) else None.

(** The longest prefix of decimal digits, read as a number; [acc] is
    [None] as long as no digit was read. *)
Fixpoint digits (s : string) (acc : option Z) : option Z :=
  match s with
  | EmptyString => acc
  | String c s' =>
      match digitVal c with
      | Some d => digits s' (Some (10 * default 0 acc + d))
      | None => acc
      end
  end.

(** [parseInt(s, 10)]: leading white space, an optional sign, then as many
    digits as there are; [NaN] when there is none. *)
Definition parseInt (s : string) : JsNum :=
  match trimStart s with
  | String "-"%char s' => Z.opp <$> digits s' None
  | String "+"%char s' => digits s' None
  | s' => digits s' None
  end.

(** A number inside a template literal. *)
Definition show (n : JsNum) : string :=
  match n with
  | None => "NaN"
  | Some z => NilZero.string_of_int (Z.to_int z)
  end.

(** [s.includes(sub)] *)
Fixpoint includes (s sub : string) : bool :=
  if String.prefix sub s then true
  else match s with
       | EmptyString => false
       | String _ s' => includes s' sub
       end.

End Js.

(* ===================================================================== *)
(** ** The Socket.IO server, [server/enhanced-server.js]                  *)
(* ===================================================================== *)

Module Server.

(** An element of [rooms[roomId]]. *)
Record Client := mkClient {
  socketId : string;
  userName : string;
  isHost : bool
}.

(** An element of [videoStates]. *)
Record VideoState := mkVideoState {
  filePath : string;
  fileName : string;
  isPlaying : bool;
  currentTime : Q;
  host : string;
  uploadTime : Z;
  lastUpdateTime : Z
}.

(** What the handlers see of a file: [fs.statSync] gives [fsize] and
    [mtime]; a [locked] file makes [fs.openSync(_, 'r+')] and
    [fs.unlinkSync] throw (EBUSY or EPERM). *)
Record File := mkFile {
  fsize : Z;
  mtime : Z;
  locked : bool
}.

(** A pending [setTimeout]. *)
Inductive Timer :=
| CleanupOrphaned (delay : Z).

Record World := mkWorld {
  rooms : gmap string (list Client);
  videoStates : gmap string VideoState;
  micStates : gmap string (gmap string bool);
  activeStreams : gmap string (gset nat);
  (** the environment *)
  fs : gmap string File;
  ioRooms : gmap string (gset string);
  destroyed : gset nat;
  nextStream : nat;
  timers : list Timer
}.

Definition empty_world : World :=
  mkWorld ∅ ∅ ∅ ∅ ∅ ∅ ∅ 0%nat [].

Definition set_rooms (w : World) v : World :=
  mkWorld v (videoStates w) (micStates w) (activeStreams w)
          (fs w) (ioRooms w) (destroyed w) (nextStream w) (timers w).
Definition set_videoStates (w : World) v : World :=
  mkWorld (rooms w) v (micStates w) (activeStreams w)
          (fs w) (ioRooms w) (destroyed w) (nextStream w) (timers w).
Definition set_micStates (w : World) v : World :=
  mkWorld (rooms w) (videoStates w) v (activeStreams w)
          (fs w) (ioRooms w) (destroyed w) (nextStream w) (timers w).
Definition set_activeStreams (w : World) v : World :=
  mkWorld (rooms w) (videoStates w) (micStates w) v
          (fs w) (ioRooms w) (destroyed w) (nextStream w) (timers w).
Definition set_fs (w : World) v : World :=
  mkWorld (rooms w) (videoStates w) (micStates w) (activeStreams w)
          v (ioRooms w) (destroyed w) (nextStream w) (timers w).
Definition set_ioRooms (w : World) v : World :=
  mkWorld (rooms w) (videoStates w) (micStates w) (activeStreams w)
          (fs w) v (destroyed w) (nextStream w) (timers w).
Definition set_destroyed (w : World) v : World :=
  mkWorld (rooms w) (videoStates w) (micStates w) (activeStreams w)
          (fs w) (ioRooms w) v (nextStream w) (timers w).
Definition set_nextStream (w : World) v : World :=
  mkWorld (rooms w) (videoStates w) (micStates w) (activeStreams w)
          (fs w) (ioRooms w) (destroyed w) v (timers w).
Definition set_timers (w : World) v : World :=
  mkWorld (rooms w) (videoStates w) (micStates w) (activeStreams w)
          (fs w) (ioRooms w) (destroyed w) (nextStream w) v.

(** *** [GET /movie/:roomId] *)

(** The response head, as far as the range logic decides it (the content
    type, cache and CORS entries do not depend on the range). *)
Record Head := mkHead {
  contentRange : option string;
  acceptRanges : option string;
  contentLength : Js.JsNum
}.

(** What the request handler does, in program order. *)
Inductive Effect :=
| SendJson (status : Z) (error : string)
| CreateReadStream (h : nat) (path : string) (range : option (Z * Z))
| TrackStream (roomId : string) (h : nat)
| WriteHead (status : Z) (head : Head)
| Pipe (h : nat).

Inductive Outcome (A : Type) :=
| Done (w : World) (out : A)
| Threw (w : World) (out : A).
Arguments Done {A} w out.
Arguments Threw {A} w out.

Definition MAX_SAFE_INTEGER : Z := 9007199254740991.

(** [validateInteger(v, name, 0)] of Node's [ReadStream] constructor. *)
Definition validInteger (v : Js.JsNum) : bool :=
  match v with
  | Some z => (0 <=? z) && (z <=? MAX_SAFE_INTEGER)
  | None => false
  end.

(** The [start] and [end] checks of [fs.createReadStream(path, {start, end})]:
    both are integers in the safe range and [start <= end]; the call throws
    otherwise. *)
Definition readStreamRange (start end_ : Js.JsNum) : option (Z * Z) :=
  match start, end_ with
  | Some s, Some e =>
      if validInteger start && validInteger end_ && (s <=? e)
      then Some (s, e) else None
  | _, _ => None
  end.

(** [parts] of the range branch. *)
Definition rangeParts (range : string) : list string :=
  Js.split "-" (Js.removeFirst "bytes=" range).

Definition rangeStart (range : string) : Js.JsNum :=
  Js.parseInt (default EmptyString (rangeParts range !! 0%nat)).

(** [parts[1] ? parseInt(parts[1], 10) : fileSize - 1] *)
Definition rangeEnd (range : string) (fileSize : Z) : Js.JsNum :=
  match rangeParts range !! 1%nat with
  | Some p => if Js.truthy p then Js.parseInt p else Some (fileSize - 1)
  | None => Some (fileSize - 1)
  end.

Definition chunksize (start end_ : Js.JsNum) : Js.JsNum :=
  Js.add (Js.sub end_ start) (Some 1).

Definition rangeHead (start end_ : Js.JsNum) (fileSize : Z) : Head :=
  mkHead
    (Some ("bytes " +:+ Js.show start +:+ "-" +:+ Js.show end_
           +:+ "/" +:+ Js.show (Some fileSize)))
    (Some "bytes")
    (chunksize start end_).

Definition fullHead (fileSize : Z) : Head :=
  mkHead None None (Some fileSize).

(** [if (!activeStreams[roomId]) activeStreams[roomId] = new Set();
     activeStreams[roomId].add(file)] *)
Definition trackStream (w : World) (roomId : string) (h : nat) : World :=
  set_activeStreams w
    (<[roomId := {[h]} ∪ default ∅ (activeStreams w !! roomId)]>
       (activeStreams w)).

(** [if (range)]: the header is there and is not the empty string. *)
Definition givenHeader (range : option string) : option string :=
  match range with
  | Some r => if Js.truthy r then Some r else None
  | None => None
  end.

Definition getMovie (w : World) (roomId : string) (range : option string)
  : Outcome (list Effect) :=
  match videoStates w !! roomId with
  | None => Done w [SendJson 404 "No video found for this room"]
  | Some videoState =>
      if negb (Js.truthy (filePath videoState))
      then Done w [SendJson 404 "No video found for this room"]
      else
        let videoPath := filePath videoState in
        match fs w !! videoPath with
        | None => Done w [SendJson 404 "Video file not found"]
        | Some stat =>
            let fileSize := fsize stat in
            let h := nextStream w in
            match givenHeader range with
            | Some r =>
                let start := rangeStart r in
                let end_ := rangeEnd r fileSize in
                match readStreamRange start end_ with
                | None => Threw w []
                | Some se =>
                    let w1 := set_nextStream w (S h) in
                    let w2 := trackStream w1 roomId h in
                    Done w2 [CreateReadStream h videoPath (Some se);
                             TrackStream roomId h;
                             WriteHead 206 (rangeHead start end_ fileSize);
                             Pipe h]
                end
            | None =>
                let w1 := set_nextStream w (S h) in
                let w2 := trackStream w1 roomId h in
                Done w2 [CreateReadStream h videoPath None;
                         TrackStream roomId h;
                         WriteHead 200 (fullHead fileSize);
                         Pipe h]
            end
        end
  end.

(** [cleanupStream] of a request, run on the stream's [end] or [error] and
    on the response's [close]. *)
Definition cleanupStream (w : World) (roomId : string) (h : nat) : World :=
  let w1 :=
    match activeStreams w !! roomId with
    | Some s => set_activeStreams w (<[roomId := s ∖ {[h]}]> (activeStreams w))
    | None => w
    end in
  set_destroyed w1 ({[h]} ∪ destroyed w1).



(** *** Socket.IO: events and emission *)

(** The messages the server emits. *)
Inductive Event :=
| ExistingPeer (name : string)
| NewPeer (name : string)
| PeerLeft (name : string)
| MicStatus (name : string) (muted : bool)
| Signal (from : string) (signal : string)
| VideoUploaded (fileName : string) (host : string)
| VideoStateSync (hasVideo : bool) (fileName : option string)
                 (isPlaying : bool) (currentTime : Q) (host : option string)
| MoviePlay (currentTime : option Q) (timestamp : Z)
| MoviePartyEnded (host : string) (message : string).

(** One message handed to one socket. *)
Definition Delivery : Type := string * Event.

(** The sockets that sit in a Socket.IO room. *)
Definition members (w : World) (room : string) : gset string :=
  default ∅ (ioRooms w !! room).

(** [socket.emit(ev)] *)
Definition emit (sid : string) (ev : Event) : list Delivery := [(sid, ev)].

(** [socket.to(room).emit(ev)]: every socket of the room but the sender. *)
Definition emitToOthers (w : World) (sid room : string) (ev : Event)
  : list Delivery :=
  (λ s, (s, ev)) <$> elements (members w room ∖ {[sid]}).

(** [io.to(room).emit(ev)]: every socket of the room. *)
Definition emitTo (w : World) (room : string) (ev : Event) : list Delivery :=
  (λ s, (s, ev)) <$> elements (members w room).

(** [socket.join(room)] *)
Definition ioJoin (w : World) (sid room : string) : World :=
  set_ioRooms w (<[room := {[sid]} ∪ members w room]> (ioRooms w)).

(** A new connection: the socket sits in the room named by its own id. *)
Definition connect (w : World) (sid : string) : World := ioJoin w sid sid.

(** What Socket.IO does before it fires [disconnect]: the socket leaves
    every room. *)
Definition ioLeaveAll (w : World) (sid : string) : World :=
  set_ioRooms w ((λ s : gset string, s ∖ {[sid]}) <$> ioRooms w).

(** The messages of [out] handed to socket [sid], in order. *)
Definition received (sid : string) (out : list Delivery) : list Event :=
  snd <$> List.filter (λ d, String.eqb (fst d) sid) out.

(** The closure variables of one connection, as [join] sets them, and the
    socket's id. *)
Record Conn := mkConn {
  connSocket : string;
  connRoom : string;
  connName : string
}.

(** *** [POST /upload-video] *)

(** [req.file] as multer leaves it, the file being on disk already. *)
Record Upload := mkUpload {
  upPath : string;
  upOriginalName : string;
  upSize : Z
}.

(** The handler for a request that carries a file.  The first step is
    multer's, which wrote the file before the handler runs; the handler
    stores the state and tells the room. *)
Definition uploadVideo (w : World) (roomId hostName : string)
  (file : Upload) (now : Z) : World * list Delivery :=
  let w1 := set_fs w (<[upPath file := mkFile (upSize file) now false]> (fs w)) in
  let w2 := set_videoStates w1
              (<[roomId := mkVideoState (upPath file) (upOriginalName file)
                             false 0%Q hostName now now]> (videoStates w1)) in
  (w2, emitTo w2 roomId (VideoUploaded (upOriginalName file) hostName)).

(** *** [socket.on('join')] *)

Record JoinData := mkJoinData {
  joinRoomId : string;
  joinName : string;
  joinIsHost : bool
}.

(** The replay of the room's microphone states; the order of the entries
    is that of the finite map, not the insertion order of the object. *)
Definition micReplay (sid userName : string) (m : gmap string bool)
  : list Delivery :=
  (λ e, (sid, MicStatus (fst e) (snd e)))
    <$> List.filter (λ e, negb (String.eqb (fst e) userName)) (map_to_list m).

Definition videoSync (sid : string) (vs : VideoState) (t : Q) : Delivery :=
  (sid, VideoStateSync true (Some (fileName vs)) (isPlaying vs) t
          (Some (host vs))).

Definition join (w : World) (sid : string) (data : JoinData)
  : World * Conn * list Delivery :=
  let roomId := joinRoomId data in
  let userName := joinName data in
  let w1 := ioJoin w sid roomId in
  let w2 := match rooms w1 !! roomId with
            | None => set_rooms w1 (<[roomId := []]> (rooms w1))
            | Some _ => w1
            end in
  let w3 := match micStates w2 !! roomId with
            | None => set_micStates w2 (<[roomId := ∅]> (micStates w2))
            | Some _ => w2
            end in
  let w4 := set_micStates w3
              (<[roomId := <[userName := false]>
                             (default ∅ (micStates w3 !! roomId))]>
                 (micStates w3)) in
  let existingParticipants :=
    Server.userName <$> default [] (rooms w4 !! roomId) in
  let w5 := set_rooms w4
              (<[roomId := default [] (rooms w4 !! roomId)
                           ++ [mkClient sid userName (joinIsHost data)]]>
                 (rooms w4)) in
  let out1 := (λ n, (sid, ExistingPeer n)) <$> existingParticipants in
  let out2 := micReplay sid userName (default ∅ (micStates w5 !! roomId)) in
  let out3 := emitToOthers w5 sid roomId (NewPeer userName) in
  let out4 := match videoStates w5 !! roomId with
              | Some vs => [videoSync sid vs (currentTime vs)]
              | None => []
              end in
  (w5, mkConn sid roomId userName, out1 ++ out2 ++ out3 ++ out4).

(** *** [socket.on('signal')] *)

Record SignalData := mkSignalData {
  sigTo : option string;
  sigSignal : string
}.

(** [data.to] as the handler tests it: a target is named when the field is
    there and is not the empty string. *)
Definition target (data : SignalData) : option string :=
  match sigTo data with
  | Some t => if Js.truthy t then Some t else None
  | None => None
  end.

Definition onSignal (w : World) (c : Conn) (data : SignalData)
  : list Delivery :=
  let ev := Signal (connName c) (sigSignal data) in
  match target data with
  | Some t =>
      match rooms w !! connRoom c with
      | Some l =>
          match List.find (λ client, String.eqb (userName client) t) l with
          | Some targetClient => emitTo w (socketId targetClient) ev
          | None => []
          end
      | None => []
      end
  | None => emitToOthers w (connSocket c) (connRoom c) ev
  end.

(** *** [socket.on('movie-play')] *)

(** [data.currentTime || 0] *)
Definition orZero (t : option Q) : Q :=
  match t with
  | Some q => if Qeq_bool q 0 then 0%Q else q
  | None => 0%Q
  end.

(** [now] and [stamp] are the two readings of the clock. *)
Definition moviePlay (w : World) (c : Conn) (t : option Q) (now stamp : Z)
  : World * list Delivery :=
  match videoStates w !! connRoom c with
  | Some vs =>
      if String.eqb (host vs) (connName c) then
        let vs' := mkVideoState (filePath vs) (fileName vs) true (orZero t)
                     (host vs) (uploadTime vs) now in
        (set_videoStates w (<[connRoom c := vs']> (videoStates w)),
         emitToOthers w (connSocket c) (connRoom c) (MoviePlay t stamp))
      else (w, [])
  | None => (w, [])
  end.

(** *** [socket.on('request-video-state')] *)

Record StateRequest := mkStateRequest {
  reqUserName : option string;
  reqRoomId : option string
}.

(** [data?.field || fallback] *)
Definition orElse (field : option string) (fallback : string) : string :=
  match field with
  | Some s => if Js.truthy s then s else fallback
  | None => fallback
  end.

(** [adjustedCurrentTime] *)
Definition adjustedCurrentTime (currentState : VideoState) (now : Z) : Q :=
  if isPlaying currentState && negb (lastUpdateTime currentState =? 0) then
    let timeSinceUpdate :=
      (inject_Z (now - lastUpdateTime currentState) / inject_Z 1000)%Q in
    (currentTime currentState + timeSinceUpdate)%Q
  else currentTime currentState.

Definition requestVideoState (w : World) (c : Conn)
  (data : option StateRequest) (now : Z) : list Delivery :=
  let requestingRoom := orElse (data ≫= reqRoomId) (connRoom c) in
  match videoStates w !! requestingRoom with
  | Some currentState =>
      [videoSync (connSocket c) currentState
         (adjustedCurrentTime currentState now)]
  | None =>
      emit (connSocket c) (VideoStateSync false None false 0%Q None)
  end.

(** *** [closeActiveStreams] and [cleanupOrphanedVideos] *)

(** The [for ... of] loop: [stream.destroy()] on every stream of the set. *)
Definition destroyAll (s : gset nat) (d : gset nat) : gset nat :=
  foldr (λ stream acc, {[stream]} ∪ acc) d (elements s).

Definition closeActiveStreams (w : World) (roomId : string) : World :=
  match activeStreams w !! roomId with
  | Some s =>
      if (0 <? size s)%nat then
        let w1 := set_destroyed w (destroyAll s (destroyed w)) in
        set_activeStreams w1 (delete roomId (activeStreams w1))
      else w
  | None => w
  end.

(** [cleanupOrphanedVideos()] only arms a timer. *)
Definition cleanupOrphanedVideos (w : World) : World :=
  set_timers w (timers w ++ [CleanupOrphaned 2000]).

(** [fs.unlinkSync(path)]: [None] when it throws. *)
Definition unlinkSync (w : World) (path : string) : option World :=
  match fs w !! path with
  | Some f => if locked f then None else Some (set_fs w (delete path (fs w)))
  | None => None
  end.

(** *** [socket.on('disconnect')] *)

(** The host branch: the file is unlinked inside [try ... catch]. *)
Definition hostCleanup (w : World) (c : Conn) (vs : VideoState)
  : World * list Delivery :=
  let videoPath := filePath vs in
  let wa := match fs w !! videoPath with
            | Some _ => default w (unlinkSync w videoPath)
            | None => w
            end in
  let out := emitToOthers wa (connSocket c) (connRoom c)
               (MoviePartyEnded (connName c)
                  "Movie party ended - host disconnected") in
  let wb := set_videoStates wa (delete (connRoom c) (videoStates wa)) in
  let wc := closeActiveStreams wb (connRoom c) in
  (cleanupOrphanedVideos wc, out).

(** The empty-room branch: here [fs.unlinkSync] stands outside any
    [try ... catch]; [inr] when it throws, with the world as it is then. *)
Definition emptyRoomCleanup (w : World) (roomId : string) : World + World :=
  let w1 := set_rooms w (delete roomId (rooms w)) in
  let w2 := match micStates w1 !! roomId with
            | Some _ => set_micStates w1 (delete roomId (micStates w1))
            | None => w1
            end in
  let finish (w3 : World) : World :=
    cleanupOrphanedVideos (closeActiveStreams w3 roomId) in
  match videoStates w2 !! roomId with
  | Some vs =>
      let videoPath := filePath vs in
      match fs w2 !! videoPath with
      | Some _ =>
          match unlinkSync w2 videoPath with
          | Some w3 =>
              inl (finish (set_videoStates w3 (delete roomId (videoStates w3))))
          | None => inr w2
          end
      | None =>
          inl (finish (set_videoStates w2 (delete roomId (videoStates w2))))
      end
  | None => inl (finish w2)
  end.

(** The members of the room that stay: [client.socketId !== socket.id]. *)
Definition remaining (sid : string) (l : list Client) : list Client :=
  List.filter (λ client, negb (String.eqb (socketId client) sid)) l.

(** [wasHost], computed before anything is changed. *)
Definition wasHost (w : World) (c : Conn) : bool :=
  match videoStates w !! connRoom c with
  | Some vs => String.eqb (host vs) (connName c)
  | None => false
  end.

(** What every disconnect does to the room: the session leaves the list,
    its microphone entry goes, the others are told. *)
Definition leaveRoom (w : World) (c : Conn) (l' : list Client)
  : World * list Delivery :=
  let roomId := connRoom c in
  let w1 := set_rooms w (<[roomId := l']> (rooms w)) in
  let w2 := match micStates w1 !! roomId with
            | Some m =>
                set_micStates w1
                  (<[roomId := delete (connName c) m]> (micStates w1))
            | None => w1
            end in
  (w2, emitToOthers w2 (connSocket c) roomId (PeerLeft (connName c))).

(** [if (wasHost && videoStates[roomId]) { ... }] *)
Definition hostBranch (w : World) (c : Conn) (wasHost : bool)
  : World * list Delivery :=
  match (if wasHost then videoStates w !! connRoom c else None) with
  | Some vs => hostCleanup w c vs
  | None => (w, [])
  end.

(** The handler runs after Socket.IO took the socket out of its rooms. *)
Definition disconnect (w0 : World) (c : Conn) : Outcome (list Delivery) :=
  let w := ioLeaveAll w0 (connSocket c) in
  let wasHost := wasHost w c in
  match rooms w !! connRoom c with
  | None => Done w []
  | Some l =>
      let l' := remaining (connSocket c) l in
      let '(w2, out1) := leaveRoom w c l' in
      let '(w3, out2) := hostBranch w2 c wasHost in
      if (length l' =? 0)%nat then
        match emptyRoomCleanup w3 (connRoom c) with
        | inl w4 => Done w4 (out1 ++ out2)
        | inr w4 => Threw w4 (out1 ++ out2)
        end
      else Done w3 (out1 ++ out2)
  end.

(** *** The periodic cleanup, [setInterval(..., 5 * 60 * 1000)] *)

Definition ONE_HOUR : Z := 60 * 60 * 1000.
Definition TEN_MINUTES : Z := 10 * 60 * 1000.

(** [path.join(uploadsDir, file)] for a plain file name. *)
Definition pathJoin (dir file : string) : string := dir +:+ "/" +:+ file.

(** [Object.values(videoStates).some(state => state.filePath === filePath)] *)
Definition isInUse (w : World) (path : string) : bool :=
  existsb (λ state : VideoState, String.eqb (filePath state) path)
    (snd <$> map_to_list (videoStates w)).

Definition shouldDelete (w : World) (path : string) (fileAge : Z) : bool :=
  (negb (isInUse w path) && (ONE_HOUR <? fileAge))
  || ((size (videoStates w) =? 0)%nat && (TEN_MINUTES <? fileAge)).

(** The body of [files.forEach] for one entry of the directory.  The
    boolean tells whether the deletion was attempted, that is whether the
    [if (shouldDelete)] block was entered; a locked file makes
    [fs.openSync] throw and is skipped. *)
Definition janitorFile (w : World) (uploadsDir file : string) (now : Z)
  : World * bool :=
  let path := pathJoin uploadsDir file in
  match fs w !! path with
  | None => (w, false)
  | Some stat =>
      let fileAge := now - mtime stat in
      if shouldDelete w path fileAge then
        ((if locked stat then w else set_fs w (delete path (fs w))), true)
      else (w, false)
  end.

(** One pass over [files], the listing of the directory, at the instant
    [now]; the files whose deletion was attempted are returned in order. *)
Fixpoint janitorPass (w : World) (uploadsDir : string) (files : list string)
  (now : Z) : World * list string :=
  match files with
  | [] => (w, [])
  | file :: rest =>
      let '(w1, attempted) := janitorFile w uploadsDir file now in
      let '(w2, others) := janitorPass w1 uploadsDir rest now in
      (w2, if attempted then file :: others else others)
  end.

(** The threshold as the specification words it: the shorter one when no
    room is active at all, the longer one otherwise. *)
Definition spec_threshold (w : World) : Z :=
  if (size (rooms w) =? 0)%nat then TEN_MINUTES else ONE_HOUR.

Definition spec_shouldDelete (w : World) (path : string) (fileAge : Z) : bool :=
  negb (isInUse w path) && (spec_threshold w <? fileAge).

(** The threshold the code applies: it looks at the playback states, not
    at the rooms. *)
Definition threshold (w : World) : Z :=
  if (size (videoStates w) =? 0)%nat then TEN_MINUTES else ONE_HOUR.

(** *** Coherence of the registry with the Socket.IO rooms *)

(** The sockets of Socket.IO room [r] are the sockets of the sessions
    recorded in [rooms[r]]. *)
Definition coherent (w : World) (r : string) : Prop :=
  ∀ sid, sid ∈ members w r
         ↔ ∃ client, client ∈ default [] (rooms w !! r)
                     ∧ socketId client = sid.

Definition isMoviePartyEnded (ev : Event) : bool :=
  match ev with MoviePartyEnded _ _ => true | _ => false end.

(** *** CORS: the [origin] callback of Socket.IO and the HTTP middleware *)

(** [frontendUrl] is [process.env.FRONTEND_URL], [None] when it is not
    set. *)
Definition allowedOrigins (frontendUrl : option string)
  : list (option string) :=
  [Some "http://localhost:3000";
   Some "http://localhost:8080";
   Some "http://127.0.0.1:3000";
   Some "http://127.0.0.1:8080";
   frontendUrl;
   Some "https://your-app-name.vercel.app"].

(** [allowedOrigins.includes(origin)] *)
Definition listed (frontendUrl : option string) (origin : string) : bool :=
  existsb (λ a, match a with
                | Some s => String.eqb s origin
                | None => false
                end)
    (allowedOrigins frontendUrl).

(** The [origin] callback: [true] for [callback(null, true)], [false] for
    [callback(new Error('Not allowed by CORS'))]. *)
Definition corsOrigin (frontendUrl : option string) (origin : option string)
  : bool :=
  match givenHeader origin with
  | None => true
  | Some o => listed frontendUrl o || Js.includes o "vercel.app"
  end.

Inductive Next :=
| SendStatus (status : Z)
| CallNext.

(** The middleware: the value of [Access-Control-Allow-Origin], if it is
    set, and how the request goes on. *)
Definition corsMiddleware (frontendUrl : option string)
  (origin : option string) (method : string) : option string * Next :=
  let allowOrigin :=
    match givenHeader origin with
    | None => Some "*"
    | Some o =>
        if listed frontendUrl o || Js.includes o "vercel.app"
        then Some o else None
    end in
  (allowOrigin,
   if String.eqb method "OPTIONS" then SendStatus 200 else CallNext).

(** *** [GET /health] and [GET /api/status] *)

Definition activeRooms (w : World) : nat := size (rooms w).

Definition activeVideoStates (w : World) : nat := size (videoStates w).

(** [Object.keys(rooms).reduce((total, room) => total + rooms[room].length, 0)];
    the order of the keys does not matter to the sum. *)
Definition activeConnections (w : World) : nat :=
  map_fold (λ _ (l : list Client) total, (total + length l)%nat) 0%nat
    (rooms w).

(** *** [POST /upload-video], with or without a file *)

Inductive UploadReply :=
| UploadError (status : Z) (error : string)
| UploadOk (fileName : string) (message : string).

Definition postUploadVideo (w : World) (roomId hostName : string)
  (file : option Upload) (now : Z) : World * list Delivery * UploadReply :=
  match file with
  | None => (w, [], UploadError 400 "No video file uploaded")
  | Some f =>
      let '(w', out) := uploadVideo w roomId hostName f now in
      (w', out, UploadOk (upOriginalName f) "Video uploaded successfully")
  end.

(** *** [socket.on('mic-status')] *)

Definition micStatus (w : World) (c : Conn) (muted : bool)
  : World * list Delivery :=
  let w1 := match micStates w !! connRoom c with
            | Some m =>
                set_micStates w
                  (<[connRoom c := <[connName c := muted]> m]> (micStates w))
            | None => w
            end in
  (w1, emitToOthers w1 (connSocket c) (connRoom c)
         (MicStatus (connName c) muted)).

(** *** [socket.on('movie-pause')] and [socket.on('movie-seek')] *)

(** The messages of the other playback controls. *)
Inductive ControlEvent :=
| MoviePause (currentTime : option Q) (timestamp : Z)
| MovieSeek (currentTime : option Q) (timestamp : Z).

(** The sockets [socket.to(room)] addresses. *)
Definition others (w : World) (sid room : string) : list string :=
  elements (members w room ∖ {[sid]}).

Definition moviePause (w : World) (c : Conn) (t : option Q) (now stamp : Z)
  : World * list (string * ControlEvent) :=
  match videoStates w !! connRoom c with
  | Some vs =>
      if String.eqb (host vs) (connName c) then
        let vs' := mkVideoState (filePath vs) (fileName vs) false (orZero t)
                     (host vs) (uploadTime vs) now in
        (set_videoStates w (<[connRoom c := vs']> (videoStates w)),
         (λ s, (s, MoviePause t stamp))
           <$> others w (connSocket c) (connRoom c))
      else (w, [])
  | None => (w, [])
  end.

Definition movieSeek (w : World) (c : Conn) (t : option Q) (now stamp : Z)
  : World * list (string * ControlEvent) :=
  match videoStates w !! connRoom c with
  | Some vs =>
      if String.eqb (host vs) (connName c) then
        let vs' := mkVideoState (filePath vs) (fileName vs) (isPlaying vs)
                     (orZero t) (host vs) (uploadTime vs) now in
        (set_videoStates w (<[connRoom c := vs']> (videoStates w)),
         (λ s, (s, MovieSeek t stamp))
           <$> others w (connSocket c) (connRoom c))
      else (w, [])
  | None => (w, [])
  end.

(** *** [socket.on('stop-movie-party')] and the deferred unlinks *)

(** The timers that unlink a file later.  [UnlinkAfter] is armed by
    [stop-movie-party]; its body tries once and, on a locked file, arms
    [RetryAfter], whose body tries a last time.  The timers a handler arms
    are returned beside its result. *)
Inductive Deferred :=
| UnlinkAfter (delay : Z) (path : string)
| RetryAfter (delay : Z) (path : string).

(** [{ roomId, host } = data] *)
Record StopData := mkStopData {
  stopRoomId : string;
  stopHost : string
}.

Definition stopMovieParty (w : World) (c : Conn) (data : StopData)
  : World * list Delivery * list Deferred :=
  let roomId := stopRoomId data in
  match videoStates w !! roomId with
  | Some vs =>
      if String.eqb (host vs) (stopHost data)
         && String.eqb (connName c) (stopHost data) then
        let videoPath := filePath vs in
        let armed := match fs w !! videoPath with
                     | Some _ => [UnlinkAfter 1000 videoPath]
                     | None => []
                     end in
        let w1 := set_videoStates w (delete roomId (videoStates w)) in
        let w2 := closeActiveStreams w1 roomId in
        (w2,
         emitTo w2 roomId
           (MoviePartyEnded (stopHost data) "Movie party has ended"),
         armed)
      else (w, [], [])
  | None => (w, [], [])
  end.

(** The body of [UnlinkAfter]: a locked file (EPERM, EBUSY) arms the retry,
    any other failure is logged. *)
Definition runUnlink (w : World) (path : string) : World * list Deferred :=
  match fs w !! path with
  | Some f =>
      if locked f then (w, [RetryAfter 5000 path])
      else (set_fs w (delete path (fs w)), [])
  | None => (w, [])
  end.

(** The body of [RetryAfter]: the failure is logged. *)
Definition runRetry (w : World) (path : string) : World :=
  default w (unlinkSync w path).

(** *** The body of the [cleanupOrphanedVideos] timer *)

(** [Object.values(videoStates).map(state => state.filePath)] *)
Definition activeFilePaths (w : World) : list string :=
  (filePath ∘ snd) <$> map_to_list (videoStates w).

(** The body of [files.forEach] for one entry: a file no state refers to
    is opened and unlinked; a locked file arms a retry, any other failure
    is logged. *)
Definition sweepFile (w : World) (uploadsDir file : string)
  : World * list Deferred :=
  let path := pathJoin uploadsDir file in
  if negb (existsb (String.eqb path) (activeFilePaths w)) then
    match fs w !! path with
    | Some f =>
        if locked f then (w, [RetryAfter 5000 path])
        else (set_fs w (delete path (fs w)), [])
    | None => (w, [])
    end
  else (w, []).

(** The sweep over [files], the listing of the uploads directory. *)
Fixpoint orphanSweep (w : World) (uploadsDir : string) (files : list string)
  : World * list Deferred :=
  match files with
  | [] => (w, [])
  | file :: rest =>
      let '(w1, armed) := sweepFile w uploadsDir file in
      let '(w2, more) := orphanSweep w1 uploadsDir rest in
      (w2, armed ++ more)
  end.

End Server.

(* ===================================================================== *)
(** ** The plain WebSocket signalling server                              *)
(* ===================================================================== *)

(** The [ws] based server keeps one global, [rooms], whose lists hold the
    [ws] objects themselves.  Its relay of [signal] messages, its [join]
    and its [close] handler are modelled. *)

Module Legacy.

Inductive ReadyState := CONNECTING | OPEN | CLOSING | CLOSED.

(** A [ws] object: [userName] is the property [join] stores on it. *)
Record WebSocket := mkWebSocket {
  userName : option string;
  readyState : ReadyState
}.

(** [rooms[roomId]] holds references to the [ws] objects, which live in
    [sockets]. *)
Record WsWorld := mkWsWorld {
  sockets : gmap nat WebSocket;
  rooms : gmap string (list nat)
}.

(** The closure variables of one connection and its [ws]. *)
Record WsConn := mkWsConn {
  connWs : nat;
  wsRoom : string;
  wsName : string
}.



Definition isOpen (w : WsWorld) (ws : nat) : bool :=
  match sockets w !! ws with
  | Some s => match readyState s with OPEN => true | _ => false end
  | None => false
  end.

(** [client.userName === data.to] *)
Definition named (w : WsWorld) (t : string) (ws : nat) : bool :=
  match sockets w !! ws with
  | Some s => match userName s with
              | Some n => String.eqb n t
              | None => false
              end
  | None => false
  end.



(** The other messages of the plain server. *)
Inductive Notice :=
| ExistingPeer (name : string)
| NewPeer (name : string)
| RefreshPeer (name : string)
| PeerLeft (name : string).

Definition WsNotice : Type := nat * Notice.

(** [.map(client => client.userName).filter(userName => userName)] *)
Definition existingNames (w : WsWorld) (l : list nat) : list string :=
  omap (λ ws, match sockets w !! ws ≫= userName with
              | Some n => if Js.truthy n then Some n else None
              | None => None
              end) l.

(** [case 'join'], for the message of socket [ws]. *)
Definition caseJoin (w : WsWorld) (ws : nat) (roomId name : string)
  : WsWorld * WsConn * list WsNotice :=
  let old := default [] (rooms w !! roomId) in
  let existingParticipants := existingNames w old in
  let w1 := mkWsWorld
              (alter (λ s, mkWebSocket (Some name) (readyState s)) ws
                 (sockets w))
              (<[roomId := old ++ [ws]]> (rooms w)) in
  let room := old ++ [ws] in
  let out1 := (λ n, (ws, ExistingPeer n)) <$> existingParticipants in
  let out2 := (λ client, (client, NewPeer name))
                <$> List.filter (λ client, negb (client =? ws)%nat
                                           && isOpen w1 client) room in
  let out3 :=
    if (2 <=? length existingParticipants)%nat then
      flat_map (λ peer1,
        flat_map (λ peer2,
          if negb (String.eqb peer1 peer2) then
            match List.find (named w1 peer1) room with
            | Some client1 =>
                if isOpen w1 client1 then [(client1, RefreshPeer peer2)]
                else []
            | None => []
            end
          else [])
          existingParticipants)
        existingParticipants
    else [] in
  (w1, mkWsConn ws roomId name, out1 ++ out2 ++ out3).

(** [ws.on('close')] *)
Definition onClose (w : WsWorld) (c : WsConn) : WsWorld * list WsNotice :=
  match rooms w !! wsRoom c with
  | Some l =>
      if Js.truthy (wsName c) then
        let l' := List.filter (λ x, negb (x =? connWs c)%nat) l in
        let out := (λ client, (client, PeerLeft (wsName c)))
                     <$> List.filter (isOpen w) l' in
        let rooms1 := <[wsRoom c := l']> (rooms w) in
        (mkWsWorld (sockets w)
           (if (length l' =? 0)%nat then delete (wsRoom c) rooms1 else rooms1),
         out)
      else (w, [])
  | None => (w, [])
  end.

(** The notices of [out] handed to [ws], in order. *)
Definition noticed (ws : nat) (out : list WsNotice) : list Notice :=
  snd <$> List.filter (λ d, (fst d =? ws)%nat) out.

End Legacy.

Import Server.

(* ===================================================================== *)
(** ** Vocabulary of the statements                                       *)
(* ===================================================================== *)



(** The world after a request for the asset of [roomId] was served in [w]:
    the stream is registered. *)
Definition served (w : World) (roomId : string) : World :=
  trackStream (set_nextStream w (S (nextStream w))) roomId (nextStream w).


(** [coherent], decided. *)
Definition coherentb (w : World) (r : string) : bool :=
  bool_decide (members w r
               = list_to_set (socketId <$> default [] (rooms w !! r))).

(** No playback state of any room refers to the file. *)
Definition unreferenced (w : World) (path : string) : Prop :=
  ∀ r vs, videoStates w !! r = Some vs → filePath vs ≠ path.

(* ===================================================================== *)
(** ** Concrete worlds used by the examples                               *)
(* ===================================================================== *)

Definition film : Upload := mkUpload "uploads/movie-r-1.mp4" "film.mp4" 1000.

Definition alice : Conn := mkConn "s1" "r" "alice".
Definition bob : Conn := mkConn "s2" "r" "bob".

(** alice sits alone in room ["r"]. *)
Definition w_alice : World :=
  (join (connect empty_world "s1") "s1" (mkJoinData "r" "alice" true)).1.1.

(** She uploaded a film of 1000 bytes, at the instant 1000. *)
Definition w_film : World := (uploadVideo w_alice "r" "alice" film 1000).1.

(** bob joined. *)
Definition w_two : World :=
  (join (connect w_film "s2") "s2" (mkJoinData "r" "bob" false)).1.1.

(** The playback state of [w_film] and [w_two]: loaded, not playing. *)
Definition vs_paused : VideoState :=
  mkVideoState "uploads/movie-r-1.mp4" "film.mp4" false 0%Q "alice" 1000 1000.

(** alice started the film at the instant 5000, from position 10. *)
Definition w_playing : World := (moviePlay w_two alice (Some 10%Q) 5000 5000).1.

Definition vs_playing : VideoState :=
  mkVideoState "uploads/movie-r-1.mp4" "film.mp4" true 10%Q "alice" 1000 5000.


(** bob's range request is being served: stream 0 is open. *)
Definition w_streaming : World :=
  match getMovie w_two "r" (Some "bytes=0-99") with
  | Done w _ => w
  | Threw w _ => w
  end.

(** That stream ended, which leaves an empty stream set. *)
Definition w_streamed : World := cleanupStream w_streaming "r" 0.

(** alice alone in the room; her own range request was served and its
    stream ended. *)
Definition w_solo : World :=
  match getMovie w_film "r" (Some "bytes=0-99") with
  | Done w _ => cleanupStream w "r" 0
  | Threw w _ => w
  end.

(** alice sits in room ["r"], no film was uploaded, and a file of twenty
    minutes ago lies in the uploads directory. *)
Definition w_stale : World :=
  set_fs w_alice (<["uploads/old.mp4" := mkFile 500 0 false]> (fs w_alice)).

Definition TWENTY_MINUTES : Z := 20 * 60 * 1000.

(** dave uploaded for room ["r"] without sitting in it; the file is held
    open by another process; bob is the only member. *)
Definition w_held : World :=
  let w := (join (connect empty_world "s2") "s2"
              (mkJoinData "r" "bob" false)).1.1 in
  let w1 := (uploadVideo w "r" "dave" film 1000).1 in
  set_fs w1 (<[upPath film := mkFile 1000 1000 true]> (fs w1)).

(** The plain server with ann (ws 1) and ben (ws 2) in room ["r"]. *)
Definition lw_two : Legacy.WsWorld :=
  Legacy.mkWsWorld
    (<[1%nat := Legacy.mkWebSocket (Some "ann") Legacy.OPEN]>
       (<[2%nat := Legacy.mkWebSocket (Some "ben") Legacy.OPEN]> ∅))
    (<["r" := [1%nat; 2%nat]]> ∅).

Definition ann : Legacy.WsConn := Legacy.mkWsConn 1 "r" "ann".

(** The header [bytes=s-e] and the open-ended header [bytes=s-]. *)
Definition bytesRange (s e : Z) : string :=
  "bytes=" +:+ Js.show (Some s) +:+ "-" +:+ Js.show (Some e).

Definition bytesFrom (s : Z) : string :=
  "bytes=" +:+ Js.show (Some s) +:+ "-".

(** A room with an asset on disk: a state with a file path, and the file. *)
Definition hasAsset (w : World) (roomId : string) (vs : VideoState) (f : File)
  : Prop :=
  videoStates w !! roomId = Some vs
  ∧ filePath vs ≠ EmptyString
  ∧ fs w !! filePath vs = Some f.

(** The stream handles registered for a room. *)
Definition handles (w : World) (roomId : string) : gset nat :=
  default ∅ (activeStreams w !! roomId).

(** Every registered handle was numbered by an earlier request. *)
Definition streamsFresh (w : World) : Prop :=
  ∀ r h, h ∈ handles w r → (h < nextStream w)%nat.

Definition isExistingPeer (ev : Event) : bool :=
  match ev with ExistingPeer _ => true | _ => false end.

Definition isNewPeer (ev : Event) : bool :=
  match ev with NewPeer _ => true | _ => false end.

Definition isMicStatus (ev : Event) : bool :=
  match ev with MicStatus _ _ => true | _ => false end.

Definition isPeerLeft (ev : Event) : bool :=
  match ev with PeerLeft _ => true | _ => false end.

(** The sessions and the microphone states of a room. *)
Definition sessions (w : World) (roomId : string) : list Client :=
  default [] (rooms w !! roomId).

Definition mics (w : World) (roomId : string) : gmap string bool :=
  default ∅ (micStates w !! roomId).


Definition isWsExistingPeer (n : Legacy.Notice) : bool :=
  match n with Legacy.ExistingPeer _ => true | _ => false end.

Definition isWsNewPeer (n : Legacy.Notice) : bool :=
  match n with Legacy.NewPeer _ => true | _ => false end.

Definition isWsRefreshPeer (n : Legacy.Notice) : bool :=
  match n with Legacy.RefreshPeer _ => true | _ => false end.

(* ===================================================================== *)
(** ** Facts about the primitives                                         *)
(* ===================================================================== *)

Example rangeParts_ex :
  rangeParts "bytes=100-199" = ["100"; "199"]
  ∧ rangeParts "bytes=500-" = ["500"; EmptyString]
  ∧ rangeParts "bytes=-500" = [EmptyString; "500"].
Proof. repeat split. Qed.

Example parseInt_ex :
  Js.parseInt "199" = Some 199
  ∧ Js.parseInt " 12px" = Some 12
  ∧ Js.parseInt EmptyString = None
  ∧ Js.parseInt "abc" = None.
Proof. repeat split. Qed.

(** An open-ended range takes the last byte of the file as its end; a
    suffix range has no start that reads as a number, and
    [fs.createReadStream] refuses it. *)
Example rangeEnd_ex :
  rangeEnd "bytes=500-" 1000 = Some 999
  ∧ rangeStart "bytes=-500" = None
  ∧ readStreamRange (rangeStart "bytes=-500") (rangeEnd "bytes=-500" 1000)
    = None.
Proof. repeat split. Qed.

Lemma truthy_ne (s : string) : s ≠ EmptyString → Js.truthy s = true.
Proof.
  intros H. unfold Js.truthy. destruct (String.eqb_spec s EmptyString); [contradiction | reflexivity].
Qed.

Lemma destroyAll_union (s d : gset nat) : destroyAll s d = s ∪ d.
Proof.
  unfold destroyAll.
  rewrite <- (list_to_set_elements_L s) at 2.
  induction (elements s) as [|x l IH]; simpl.
  - set_solver.
  - rewrite IH. set_solver.
Qed.

Lemma size_zero_empty (s : gset nat) : (0 <? size s)%nat = false → s = ∅.
Proof.
  intros H. apply Nat.ltb_ge in H.
  apply leibniz_equiv, size_empty_inv. lia.
Qed.

(** The messages one socket gets out of a fan-out over distinct sockets. *)
Lemma received_fanout (x : string) (ev : Event) (ids : list string) :
  NoDup ids →
  received x ((λ s, (s, ev)) <$> ids) = if bool_decide (x ∈ ids) then [ev] else [].
Proof.
  unfold received. induction 1 as [|y l Hy Hnd IH].
  - reflexivity.
  - rewrite fmap_cons. cbn [List.filter fst].
    destruct (String.eqb_spec y x) as [->|Hne].
    + rewrite fmap_cons, IH. cbn [snd].
      rewrite (bool_decide_eq_false_2 (x ∈ l)) by assumption.
      rewrite bool_decide_eq_true_2 by (left; reflexivity). reflexivity.
    + rewrite IH. apply (f_equal (λ b : bool, if b then [ev] else [])).
      apply bool_decide_ext. rewrite elem_of_cons. naive_solver.
Qed.

Lemma received_app (x : string) (o1 o2 : list Delivery) :
  received x (o1 ++ o2) = received x o1 ++ received x o2.
Proof. unfold received. by rewrite List.filter_app, fmap_app. Qed.

Lemma received_emitToOthers (w : World) (sid room x : string) (ev : Event) :
  received x (emitToOthers w sid room ev)
  = if bool_decide (x ∈ members w room ∧ x ≠ sid) then [ev] else [].
Proof.
  unfold emitToOthers. rewrite received_fanout by apply NoDup_elements.
  apply (f_equal (λ b : bool, if b then [ev] else [])).
  apply bool_decide_ext. rewrite elem_of_elements. set_solver.
Qed.

Lemma members_ioLeaveAll (w : World) (sid r : string) :
  members (ioLeaveAll w sid) r = members w r ∖ {[sid]}.
Proof.
  unfold members, ioLeaveAll; simpl. rewrite lookup_fmap.
  destruct (ioRooms w !! r); simpl; [reflexivity | set_solver].
Qed.

(* ===================================================================== *)
(** ** The byte-range media server                                        *)
(* ===================================================================== *)


Lemma readStreamRange_ok (s e : Z) :
  0 ≤ s → s ≤ e → e ≤ MAX_SAFE_INTEGER →
  readStreamRange (Some s) (Some e) = Some (s, e).
Proof.
  intros H0 Hse He. unfold readStreamRange, validInteger.
  assert (H1 : (0 <=? s) = true) by (apply Z.leb_le; lia).
  assert (H2 : (s <=? MAX_SAFE_INTEGER) = true) by (apply Z.leb_le; lia).
  assert (H3 : (0 <=? e) = true) by (apply Z.leb_le; lia).
  assert (H4 : (e <=? MAX_SAFE_INTEGER) = true) by (apply Z.leb_le; lia).
  assert (H5 : (s <=? e) = true) by (apply Z.leb_le; lia).
  rewrite H1, H2, H3, H4, H5. reflexivity.
Qed.

(** The range branch of [GET /movie/:roomId], for a request whose start and
    end read as numbers that [fs.createReadStream] accepts. *)
Lemma getMovie_range (w : World) (roomId r : string) (vs : VideoState)
  (f : File) (s e : Z) :
  videoStates w !! roomId = Some vs →
  filePath vs ≠ EmptyString →
  fs w !! filePath vs = Some f →
  r ≠ EmptyString →
  rangeStart r = Some s →
  rangeEnd r (fsize f) = Some e →
  0 ≤ s → s ≤ e → e ≤ MAX_SAFE_INTEGER →
  getMovie w roomId (Some r)
  = Done (served w roomId)
      [CreateReadStream (nextStream w) (filePath vs) (Some (s, e));
       TrackStream roomId (nextStream w);
       WriteHead 206 (rangeHead (Some s) (Some e) (fsize f));
       Pipe (nextStream w)].
Proof.
  intros Hvs Hp Hf Hr Hs He H0 Hse Hmax. unfold getMovie.
  rewrite Hvs, (truthy_ne _ Hp). cbn [negb]. rewrite Hf.
  unfold givenHeader. rewrite (truthy_ne _ Hr), Hs, He.
  rewrite readStreamRange_ok by assumption. reflexivity.
Qed.

Lemma served_registers (w : World) (roomId : string) :
  nextStream w ∈ default ∅ (activeStreams (served w roomId) !! roomId).
Proof.
  unfold served, trackStream; simpl. rewrite lookup_insert_eq. simpl. set_solver.
Qed.

(** C8. A request [bytes=100-199] on a room whose asset has 1000 bytes is
    answered with status 206, [Content-Range: bytes 100-199/1000] and
    [Content-Length: 100]. *)
Theorem C8_range_100_199_of_1000 (w : World) (roomId : string)
  (vs : VideoState) (f : File) :
  videoStates w !! roomId = Some vs →
  filePath vs ≠ EmptyString →
  fs w !! filePath vs = Some f →
  fsize f = 1000 →
  getMovie w roomId (Some "bytes=100-199")
  = Done (served w roomId)
      [CreateReadStream (nextStream w) (filePath vs) (Some (100, 199));
       TrackStream roomId (nextStream w);
       WriteHead 206
         (mkHead (Some "bytes 100-199/1000") (Some "bytes") (Some 100));
       Pipe (nextStream w)].
Proof.
  intros Hvs Hp Hf Hsz.
  rewrite (getMovie_range w roomId "bytes=100-199" vs f 100 199 Hvs Hp Hf).
  - rewrite Hsz. reflexivity.
  - discriminate.
  - reflexivity.
  - reflexivity.
  - lia.
  - lia.
  - unfold MAX_SAFE_INTEGER. lia.
Qed.

Lemma C8_witness :
  getMovie w_film "r" (Some "bytes=100-199")
  = Done (served w_film "r")
      [CreateReadStream 0 "uploads/movie-r-1.mp4" (Some (100, 199));
       TrackStream "r" 0%nat;
       WriteHead 206
         (mkHead (Some "bytes 100-199/1000") (Some "bytes") (Some 100));
       Pipe 0].
Proof.
  apply (C8_range_100_199_of_1000 w_film "r"
           vs_paused
           (mkFile 1000 1000 false));
    [reflexivity | discriminate | reflexivity | reflexivity].
Defined.




(* ===================================================================== *)
(** ** Forced closure of a room's streams                                 *)
(* ===================================================================== *)

Lemma closeActiveStreams_absent (w : World) (roomId : string) :
  activeStreams w !! roomId = None → closeActiveStreams w roomId = w.
Proof. intros H. unfold closeActiveStreams. by rewrite H. Qed.

Lemma closeActiveStreams_empty (w : World) (roomId : string) :
  activeStreams w !! roomId = Some ∅ → closeActiveStreams w roomId = w.
Proof. intros H. unfold closeActiveStreams. by rewrite H. Qed.

(** After the call the room has no open handle left: its entry is gone, or
    it was an empty set and stays. *)
Lemma closeActiveStreams_after (w : World) (roomId : string) :
  activeStreams (closeActiveStreams w roomId) !! roomId = None
  ∨ activeStreams (closeActiveStreams w roomId) !! roomId = Some ∅.
Proof.
  unfold closeActiveStreams.
  destruct (activeStreams w !! roomId) as [s|] eqn:E; [|by left].
  destruct (0 <? size s)%nat eqn:Hs.
  - left. simpl. apply lookup_delete_eq.
  - right. rewrite E. f_equal. by apply size_zero_empty.
Qed.

Lemma closeActiveStreams_destroys (w : World) (roomId : string) (h : nat) :
  h ∈ default ∅ (activeStreams w !! roomId) ∨ h ∈ destroyed w →
  h ∈ destroyed (closeActiveStreams w roomId).
Proof.
  unfold closeActiveStreams.
  destruct (activeStreams w !! roomId) as [s|] eqn:E; simpl.
  - destruct (0 <? size s)%nat eqn:Hs; simpl.
    + rewrite destroyAll_union. set_solver.
    + apply size_zero_empty in Hs. subst s. set_solver.
  - set_solver.
Qed.

(** C9. [closeActiveStreams] is idempotent, and on a room whose stream set
    is empty or absent it changes nothing. *)
Theorem C9_closeActiveStreams_idempotent (w : World) (roomId : string) :
  closeActiveStreams (closeActiveStreams w roomId) roomId
  = closeActiveStreams w roomId
  ∧ (activeStreams w !! roomId = None ∨ activeStreams w !! roomId = Some ∅ →
     closeActiveStreams w roomId = w).
Proof.
  split.
  - destruct (closeActiveStreams_after w roomId) as [H|H].
    + by apply closeActiveStreams_absent.
    + by apply closeActiveStreams_empty.
  - intros [H|H].
    + by apply closeActiveStreams_absent.
    + by apply closeActiveStreams_empty.
Qed.

Lemma C9_witness :
  closeActiveStreams (closeActiveStreams w_streamed "r") "r"
  = closeActiveStreams w_streamed "r"
  ∧ closeActiveStreams w_streamed "r" = w_streamed.
Proof.
  destruct (C9_closeActiveStreams_idempotent w_streamed "r") as [H1 H2].
  split; [exact H1 | apply H2; right; reflexivity].
Defined.

(* ===================================================================== *)
(** ** The playback clock                                                 *)
(* ===================================================================== *)

(** C6. A [movie-play] request from a session whose name is not the
    state's host leaves the playback state (indeed the whole world) as it
    was and emits nothing. *)
Theorem C6_non_host_play_ignored (w : World) (c : Conn) (vs : VideoState)
  (t : option Q) (now stamp : Z) :
  videoStates w !! connRoom c = Some vs →
  connName c ≠ host vs →
  moviePlay w c t now stamp = (w, [])
  ∧ ∃ vs', videoStates (moviePlay w c t now stamp).1 !! connRoom c = Some vs'
           ∧ isPlaying vs' = isPlaying vs
           ∧ currentTime vs' = currentTime vs
           ∧ lastUpdateTime vs' = lastUpdateTime vs.
Proof.
  intros Hvs Hne.
  assert (E : moviePlay w c t now stamp = (w, [])).
  { unfold moviePlay. rewrite Hvs.
    destruct (String.eqb_spec (host vs) (connName c)); [congruence | reflexivity]. }
  split; [exact E|]. rewrite E. exists vs. auto.
Qed.

Lemma C6_witness :
  moviePlay w_playing bob (Some 99%Q) 7000 7000 = (w_playing, [])
  ∧ ∃ vs', videoStates (moviePlay w_playing bob (Some 99%Q) 7000 7000).1 !! "r"
           = Some vs'
           ∧ isPlaying vs' = true
           ∧ currentTime vs' = 10%Q
           ∧ lastUpdateTime vs' = 5000.
Proof.
  apply (C6_non_host_play_ignored w_playing bob
           vs_playing);
    [reflexivity | discriminate].
Defined.





(** What a socket gets out of messages addressed to one socket. *)
Lemma received_to_one {A : Type} (x sid : string) (f : A → Event) (l : list A) :
  received x ((λ a, (sid, f a)) <$> l) = if String.eqb sid x then f <$> l else [].
Proof.
  unfold received. induction l as [|a l IH].
  - by destruct (String.eqb sid x).
  - rewrite fmap_cons. cbn [List.filter fst].
    destruct (String.eqb sid x); [|exact IH].
    rewrite !fmap_cons, IH. reflexivity.
Qed.

Lemma filter_fmap_none {A : Type} (p : Event → bool) (f : A → Event) (l : list A) :
  (∀ a, p (f a) = false) → List.filter p (f <$> l) = [].
Proof.
  intros H. induction l as [|a l IH]; simpl; [reflexivity|]. by rewrite H.
Qed.






(* ===================================================================== *)
(** ** Disconnection                                                      *)
(* ===================================================================== *)

(** [closeActiveStreams] touches nothing but the stream set of the room and
    the streams it destroys. *)
Lemma closeActiveStreams_frame (w : World) (r : string) :
  rooms (closeActiveStreams w r) = rooms w
  ∧ videoStates (closeActiveStreams w r) = videoStates w
  ∧ micStates (closeActiveStreams w r) = micStates w
  ∧ fs (closeActiveStreams w r) = fs w
  ∧ ioRooms (closeActiveStreams w r) = ioRooms w.
Proof.
  unfold closeActiveStreams.
  destruct (activeStreams w !! r) as [s|]; [|done].
  destruct (0 <? size s)%nat; done.
Qed.

Lemma leaveRoom_out (w : World) (c : Conn) (l' : list Client) :
  (leaveRoom w c l').2
  = emitToOthers w (connSocket c) (connRoom c) (PeerLeft (connName c)).
Proof.
  unfold leaveRoom; simpl.
  destruct (micStates w !! connRoom c); reflexivity.
Qed.

Lemma leaveRoom_frame (w : World) (c : Conn) (l' : list Client) :
  rooms (leaveRoom w c l').1 = <[connRoom c := l']> (rooms w)
  ∧ videoStates (leaveRoom w c l').1 = videoStates w
  ∧ activeStreams (leaveRoom w c l').1 = activeStreams w
  ∧ fs (leaveRoom w c l').1 = fs w
  ∧ ioRooms (leaveRoom w c l').1 = ioRooms w
  ∧ destroyed (leaveRoom w c l').1 = destroyed w.
Proof.
  unfold leaveRoom; simpl.
  destruct (micStates w !! connRoom c); done.
Qed.

(** The host branch, when it runs: the state goes, the room's streams are
    closed, the others get one notice. *)
Lemma hostCleanup_spec (w : World) (c : Conn) (vs : VideoState) :
  let w' := (hostCleanup w c vs).1 in
  (hostCleanup w c vs).2
  = emitToOthers w (connSocket c) (connRoom c)
      (MoviePartyEnded (connName c) "Movie party ended - host disconnected")
  ∧ rooms w' = rooms w
  ∧ micStates w' = micStates w
  ∧ videoStates w' = delete (connRoom c) (videoStates w)
  ∧ (∀ h, h ∈ default ∅ (activeStreams w !! connRoom c) ∨ h ∈ destroyed w →
          h ∈ destroyed w')
  ∧ (activeStreams w' !! connRoom c = None
     ∨ activeStreams w' !! connRoom c = Some ∅)
  ∧ (∀ p, fs w !! p = None → fs w' !! p = None)
  ∧ (∀ f, fs w !! filePath vs = Some f → locked f = false →
          fs w' !! filePath vs = None).
Proof.
  unfold hostCleanup. cbn [fst snd].
  set (wa := match fs w !! filePath vs with
             | Some _ => default w (unlinkSync w (filePath vs))
             | None => w
             end).
  assert (Hwa : rooms wa = rooms w ∧ micStates wa = micStates w
                ∧ videoStates wa = videoStates w
                ∧ activeStreams wa = activeStreams w
                ∧ ioRooms wa = ioRooms w ∧ destroyed wa = destroyed w
                ∧ (∀ p, fs w !! p = None → fs wa !! p = None)
                ∧ (∀ f, fs w !! filePath vs = Some f → locked f = false →
                        fs wa !! filePath vs = None)).
  { subst wa. unfold unlinkSync.
    destruct (fs w !! filePath vs) as [f|] eqn:Ef.
    - destruct (locked f) eqn:El; simpl.
      + repeat split; try done. intros f' Hf' Hl. congruence.
      + repeat split; try done.
        * intros p Hp. destruct (decide (filePath vs = p)) as [->|Hne].
          -- apply lookup_delete_eq.
          -- by rewrite lookup_delete_ne.
        * intros _ _ _. apply lookup_delete_eq.
    - repeat split; try done. }
  destruct Hwa as (Hr & Hm & Hv & Ha & Hio & Hd & Hfs & Hfile).
  set (wb := set_videoStates wa (delete (connRoom c) (videoStates wa))).
  destruct (closeActiveStreams_frame wb (connRoom c)) as (Cr & Cv & Cm & Cf & Cio).
  repeat split.
  - unfold emitToOthers, members. by rewrite Hio.
  - simpl. rewrite Cr. exact Hr.
  - simpl. rewrite Cm. exact Hm.
  - simpl. rewrite Cv. simpl. by rewrite Hv.
  - intros h Hh. simpl. apply closeActiveStreams_destroys. simpl.
    by rewrite Ha, Hd.
  - simpl. apply closeActiveStreams_after.
  - intros p Hp. simpl. rewrite Cf. simpl. by apply Hfs.
  - intros f Hf Hl. simpl. rewrite Cf. simpl. by apply (Hfile f).
Qed.

(** The empty-room branch completes when the file of a state that is still
    there can be unlinked; it then leaves nothing of the room but, at most,
    an empty stream set. *)
Lemma emptyRoomCleanup_spec (w : World) (r : string) :
  (∀ vs f, videoStates w !! r = Some vs → fs w !! filePath vs = Some f →
           locked f = false) →
  ∃ w', emptyRoomCleanup w r = inl w'
    ∧ rooms w' !! r = None
    ∧ micStates w' !! r = None
    ∧ videoStates w' !! r = None
    ∧ (activeStreams w' !! r = None ∨ activeStreams w' !! r = Some ∅)
    ∧ (∀ h, h ∈ default ∅ (activeStreams w !! r) ∨ h ∈ destroyed w →
            h ∈ destroyed w')
    ∧ (∀ p, fs w !! p = None → fs w' !! p = None)
    ∧ (∀ vs, videoStates w !! r = Some vs → fs w' !! filePath vs = None).
Proof.
  intros Hlock. unfold emptyRoomCleanup.
  set (w1 := set_rooms w (delete r (rooms w))).
  set (w2 := match micStates w1 !! r with
             | Some _ => set_micStates w1 (delete r (micStates w1))
             | None => w1
             end).
  assert (H2 : rooms w2 = delete r (rooms w) ∧ micStates w2 !! r = None
               ∧ videoStates w2 = videoStates w
               ∧ activeStreams w2 = activeStreams w
               ∧ fs w2 = fs w ∧ destroyed w2 = destroyed w).
  { subst w2 w1. simpl. destruct (micStates w !! r) eqn:E; simpl.
    - repeat split. apply lookup_delete_eq.
    - repeat split. exact E. }
  destruct H2 as (Hr & Hm & Hv & Ha & Hf & Hd).
  assert (Hfin : ∀ w3 : World,
            rooms w3 !! r = None → micStates w3 !! r = None →
            videoStates w3 !! r = None →
            activeStreams w3 = activeStreams w → destroyed w3 = destroyed w →
            let w' := cleanupOrphanedVideos (closeActiveStreams w3 r) in
            rooms w' !! r = None ∧ micStates w' !! r = None
            ∧ videoStates w' !! r = None
            ∧ (activeStreams w' !! r = None ∨ activeStreams w' !! r = Some ∅)
            ∧ (∀ h, h ∈ default ∅ (activeStreams w !! r) ∨ h ∈ destroyed w →
                    h ∈ destroyed w')
            ∧ fs w' = fs w3).
  { intros w3 Hr3 Hm3 Hv3 Ha3 Hd3. simpl.
    destruct (closeActiveStreams_frame w3 r) as (Cr & Cv & Cm & Cf & _).
    rewrite Cr, Cv, Cm, Cf. repeat split; try assumption.
    - apply closeActiveStreams_after.
    - intros h Hh. apply closeActiveStreams_destroys. by rewrite Ha3, Hd3. }
  rewrite Hv, Hf.
  destruct (videoStates w !! r) as [vs|] eqn:Evs.
  - destruct (fs w !! filePath vs) as [f|] eqn:Ef.
    + unfold unlinkSync. rewrite Hf, Ef, (Hlock vs f eq_refl Ef).
      eexists. split; [reflexivity|].
      edestruct Hfin as (A & B & C & D & E & F); [| | | | |
        split; [exact A| split; [exact B| split; [exact C| split; [exact D|
        split; [exact E|]]]]]].
      * simpl. by rewrite Hr, lookup_delete_eq.
      * exact Hm.
      * simpl. apply lookup_delete_eq.
      * exact Ha.
      * exact Hd.
      * rewrite F. simpl. rewrite ?Hf. split.
        -- intros p Hp. destruct (decide (filePath vs = p)) as [->|Hne].
           ++ apply lookup_delete_eq.
           ++ by rewrite lookup_delete_ne.
        -- intros vs' [= <-]. apply lookup_delete_eq.
    + eexists. split; [reflexivity|].
      edestruct Hfin as (A & B & C & D & E & F); [| | | | |
        split; [exact A| split; [exact B| split; [exact C| split; [exact D|
        split; [exact E|]]]]]].
      * simpl. by rewrite Hr, lookup_delete_eq.
      * exact Hm.
      * simpl. apply lookup_delete_eq.
      * exact Ha.
      * exact Hd.
      * rewrite F. simpl. rewrite ?Hf. split; [done|].
        intros vs' [= <-]. exact Ef.
  - eexists. split; [reflexivity|].
    edestruct Hfin as (A & B & C & D & E & F); [| | | | |
      split; [exact A| split; [exact B| split; [exact C| split; [exact D|
      split; [exact E|]]]]]].
    + by rewrite Hr, lookup_delete_eq.
    + exact Hm.
    + by rewrite Hv.
    + exact Ha.
    + exact Hd.
    + rewrite F, ?Hf. split; [done | discriminate].
Qed.

Lemma remaining_elem (sid : string) (l : list Client) (client : Client) :
  client ∈ remaining sid l ↔ client ∈ l ∧ socketId client ≠ sid.
Proof.
  unfold remaining. rewrite !list_elem_of_In, List.filter_In.
  destruct (String.eqb_spec (socketId client) sid); simpl; naive_solver.
Qed.

(** The stages of [disconnect] for a session whose room is registered. *)
Lemma disconnect_stages (w : World) (c : Conn) (l : list Client) :
  rooms w !! connRoom c = Some l →
  let w0 := ioLeaveAll w (connSocket c) in
  let l' := remaining (connSocket c) l in
  let w2 := (leaveRoom w0 c l').1 in
  let out1 := (leaveRoom w0 c l').2 in
  let w3 := (hostBranch w2 c (wasHost w c)).1 in
  let out2 := (hostBranch w2 c (wasHost w c)).2 in
  disconnect w c
  = if (length l' =? 0)%nat then
      match emptyRoomCleanup w3 (connRoom c) with
      | inl w4 => Done w4 (out1 ++ out2)
      | inr w4 => Threw w4 (out1 ++ out2)
      end
    else Done w3 (out1 ++ out2).
Proof.
  intros Hl. unfold disconnect. cbn [ioLeaveAll rooms set_ioRooms].
  rewrite Hl.
  change (wasHost (ioLeaveAll w (connSocket c)) c) with (wasHost w c).
  destruct (leaveRoom (ioLeaveAll w (connSocket c)) c
              (remaining (connSocket c) l)) as [w2 out1].
  cbn [fst snd].
  destruct (hostBranch w2 c (wasHost w c)) as [w3 out2]. reflexivity.
Qed.

(** C5. When the session named as the host of the room's playback state
    disconnects, the handler completes; every session that remains in the
    room gets exactly one [movie-party-ended]; the playback state is
    removed; every stream handle registered for the room is destroyed. *)
Theorem C5_host_disconnect_ends_party (w : World) (c : Conn)
  (vs : VideoState) (l : list Client) :
  videoStates w !! connRoom c = Some vs →
  host vs = connName c →
  rooms w !! connRoom c = Some l →
  coherent w (connRoom c) →
  ∃ w' out, disconnect w c = Done w' out
    ∧ (∀ client, client ∈ remaining (connSocket c) l →
         List.filter isMoviePartyEnded (received (socketId client) out)
         = [MoviePartyEnded (connName c)
              "Movie party ended - host disconnected"])
    ∧ videoStates w' !! connRoom c = None
    ∧ (∀ h, h ∈ default ∅ (activeStreams w !! connRoom c) → h ∈ destroyed w')
    ∧ (activeStreams w' !! connRoom c = None
       ∨ activeStreams w' !! connRoom c = Some ∅).
Proof.
  intros Hvs Hh Hl Hco. rewrite (disconnect_stages w c l Hl). cbn zeta.
  set (w0 := ioLeaveAll w (connSocket c)).
  set (l' := remaining (connSocket c) l).
  destruct (leaveRoom_frame w0 c l') as (Lr & Lv & La & Lf & Lio & Ld).
  rewrite leaveRoom_out.
  set (w2 := (leaveRoom w0 c l').1) in *.
  assert (Hw : wasHost w c = true).
  { unfold wasHost. rewrite Hvs, Hh. apply String.eqb_refl. }
  rewrite Hw. unfold hostBranch. rewrite Lv. change (videoStates w0) with (videoStates w).
  rewrite Hvs.
  destruct (hostCleanup_spec w2 c vs) as (Ho & Hr & Hm & Hv & Hd & Ha & Hfs & _).
  rewrite Ho. set (w3 := (hostCleanup w2 c vs).1) in *.
  assert (Hv3 : videoStates w3 !! connRoom c = None).
  { rewrite Hv. apply lookup_delete_eq. }
  assert (Hd3 : ∀ h, h ∈ default ∅ (activeStreams w !! connRoom c) → h ∈ destroyed w3).
  { intros h Hin. apply Hd. left. rewrite La. exact Hin. }
  assert (Hrecv : ∀ client, client ∈ l' →
     List.filter isMoviePartyEnded
       (received (socketId client)
          (emitToOthers w0 (connSocket c) (connRoom c) (PeerLeft (connName c)) ++
           emitToOthers w2 (connSocket c) (connRoom c)
             (MoviePartyEnded (connName c) "Movie party ended - host disconnected")))
     = [MoviePartyEnded (connName c) "Movie party ended - host disconnected"]).
  { intros client Hin. apply remaining_elem in Hin as [Hin Hne].
    rewrite received_app, List.filter_app, !received_emitToOthers.
    assert (Hmem : socketId client ∈ members w0 (connRoom c)).
    { unfold w0. rewrite members_ioLeaveAll. apply elem_of_difference. split.
      - apply Hco. exists client. rewrite Hl. auto.
      - set_solver. }
    assert (Hmem2 : socketId client ∈ members w2 (connRoom c)).
    { unfold members. rewrite Lio. exact Hmem. }
    rewrite !bool_decide_eq_true_2 by auto. reflexivity. }
  destruct (length l' =? 0)%nat.
  - destruct (emptyRoomCleanup_spec w3 (connRoom c)) as (w4 & E & _ & _ & Hv4 & Ha4 & Hd4 & _).
    { intros vs' f Hvs'. congruence. }
    rewrite E. exists w4. eexists. split; [reflexivity|].
    split; [exact Hrecv|]. split; [exact Hv4|]. split; [|exact Ha4].
    intros h Hin. apply Hd4. right. by apply Hd3.
  - exists w3. eexists. split; [reflexivity|].
    split; [exact Hrecv|]. split; [exact Hv3|]. split; [exact Hd3 | exact Ha].
Qed.


Lemma coherentb_coherent (w : World) (r : string) :
  coherentb w r = true → coherent w r.
Proof.
  unfold coherentb, coherent. intros H%bool_decide_eq_true sid.
  rewrite H, elem_of_list_to_set, list_elem_of_fmap. naive_solver.
Qed.

Lemma C5_witness :
  ∃ w' out, disconnect w_streaming alice = Done w' out
    ∧ (∀ client, client ∈ remaining "s1" [mkClient "s1" "alice" true;
                                          mkClient "s2" "bob" false] →
         List.filter isMoviePartyEnded (received (socketId client) out)
         = [MoviePartyEnded "alice" "Movie party ended - host disconnected"])
    ∧ videoStates w' !! "r" = None
    ∧ (∀ h, h ∈ default ∅ (activeStreams w_streaming !! "r") → h ∈ destroyed w')
    ∧ (activeStreams w' !! "r" = None ∨ activeStreams w' !! "r" = Some ∅).
Proof.
  apply (C5_host_disconnect_ends_party w_streaming alice
           vs_paused
           [mkClient "s1" "alice" true; mkClient "s2" "bob" false]).
  - reflexivity.
  - reflexivity.
  - reflexivity.
  - apply coherentb_coherent. vm_compute. reflexivity.
Defined.

Example host_disconnect_run :
  ∃ w', disconnect w_streaming alice
        = Done w' [("s2", PeerLeft "alice");
                   ("s2", MoviePartyEnded "alice"
                            "Movie party ended - host disconnected")]
        ∧ destroyed w' = {[0%nat]} ∧ activeStreams w' = ∅.
Proof. eexists. split; [vm_compute; reflexivity|]. split; reflexivity. Qed.

(** C3 (as amended). When the last member of a room disconnects, and the
    asset file of a playback state that is still there can be unlinked, the
    handler completes and [rooms], [micStates] and [videoStates] keep no
    entry for the room; the asset file is gone; every stream handle of the
    room is destroyed, and [activeStreams] keeps no handle for the room: its
    entry is gone or is an empty set. *)
Theorem C3_last_member_leaves (w : World) (c : Conn) (l : list Client) :
  rooms w !! connRoom c = Some l →
  remaining (connSocket c) l = [] →
  (∀ vs f, videoStates w !! connRoom c = Some vs →
           fs w !! filePath vs = Some f → locked f = false) →
  ∃ w' out, disconnect w c = Done w' out
    ∧ rooms w' !! connRoom c = None
    ∧ micStates w' !! connRoom c = None
    ∧ videoStates w' !! connRoom c = None
    ∧ (∀ vs, videoStates w !! connRoom c = Some vs →
             fs w' !! filePath vs = None)
    ∧ (activeStreams w' !! connRoom c = None
       ∨ activeStreams w' !! connRoom c = Some ∅)
    ∧ (∀ h, h ∈ default ∅ (activeStreams w !! connRoom c) → h ∈ destroyed w').
Proof.
  intros Hl Hrem Hlock. rewrite (disconnect_stages w c l Hl). cbn zeta.
  rewrite Hrem. cbn [length Nat.eqb].
  set (w0 := ioLeaveAll w (connSocket c)).
  destruct (leaveRoom_frame w0 c []) as (Lr & Lv & La & Lf & Lio & Ld).
  set (w2 := (leaveRoom w0 c []).1) in *.
  change (videoStates w0) with (videoStates w) in Lv.
  change (activeStreams w0) with (activeStreams w) in La.
  change (fs w0) with (fs w) in Lf.
  unfold hostBranch. rewrite Lv.
  destruct (wasHost w c); [destruct (videoStates w !! connRoom c) as [vs|] eqn:Evs|].
  - destruct (hostCleanup_spec w2 c vs) as (_ & Hr & Hm & Hv & Hd & Ha & Hfs & Hfile).
    set (w3 := (hostCleanup w2 c vs).1) in *.
    destruct (emptyRoomCleanup_spec w3 (connRoom c))
      as (w4 & E & Hr4 & Hm4 & Hv4 & Ha4 & Hd4 & Hfs4 & _).
    { intros vs' f Hvs'. rewrite Hv, lookup_delete_eq in Hvs'. discriminate. }
    rewrite E. exists w4. eexists. split; [reflexivity|].
    repeat split; try assumption.
    + intros vs' [= <-]. apply Hfs4.
      destruct (fs w !! filePath vs) as [f|] eqn:Ef.
      * apply (Hfile f); [by rewrite Lf | by apply (Hlock vs f)].
      * apply Hfs. by rewrite Lf.
    + intros h Hin. apply Hd4. right. apply Hd. left. by rewrite La.
  - cbn [fst snd].
    destruct (emptyRoomCleanup_spec w2 (connRoom c))
      as (w4 & E & Hr4 & Hm4 & Hv4 & Ha4 & Hd4 & _ & Hfile4).
    { intros vs f. rewrite Lv, Lf. rewrite Evs. discriminate. }
    rewrite E. exists w4. eexists. split; [reflexivity|].
    repeat split; try assumption.
    + discriminate.
    + intros h Hin. apply Hd4. left. by rewrite La.
  - cbn [fst snd].
    destruct (emptyRoomCleanup_spec w2 (connRoom c))
      as (w4 & E & Hr4 & Hm4 & Hv4 & Ha4 & Hd4 & _ & Hfile4).
    { intros vs f. rewrite Lv, Lf. apply Hlock. }
    rewrite E. exists w4. eexists. split; [reflexivity|].
    repeat split; try assumption.
    + intros vs Hvs. apply Hfile4. by rewrite Lv.
    + intros h Hin. apply Hd4. left. by rewrite La.
Qed.

Lemma C3_witness :
  ∃ w' out, disconnect w_solo alice = Done w' out
    ∧ rooms w' !! "r" = None
    ∧ micStates w' !! "r" = None
    ∧ videoStates w' !! "r" = None
    ∧ (∀ vs, videoStates w_solo !! "r" = Some vs → fs w' !! filePath vs = None)
    ∧ (activeStreams w' !! "r" = None ∨ activeStreams w' !! "r" = Some ∅)
    ∧ (∀ h, h ∈ default ∅ (activeStreams w_solo !! "r") → h ∈ destroyed w').
Proof.
  apply (C3_last_member_leaves w_solo alice [mkClient "s1" "alice" true]).
  - reflexivity.
  - reflexivity.
  - intros vs f Hvs. vm_compute in Hvs. injection Hvs as <-.
    intros Hf. vm_compute in Hf. injection Hf as <-. reflexivity.
Defined.

(** C3 (as stated) fails: alice, alone in room ["r"], streamed a part of
    the film and the stream ended, which left an empty set under ["r"] in
    [activeStreams]; when she disconnects the room is deleted but that
    entry stays. *)
Lemma C3_counterexample :
  rooms w_solo !! "r" = Some [mkClient "s1" "alice" true]
  ∧ remaining "s1" [mkClient "s1" "alice" true] = []
  ∧ ∃ w' out, disconnect w_solo alice = Done w' out
      ∧ rooms w' !! "r" = None
      ∧ activeStreams w' !! "r" = Some ∅
      ∧ activeStreams w' !! "r" ≠ None.
Proof.
  split; [reflexivity|]. split; [reflexivity|].
  eexists. eexists. split; [vm_compute; reflexivity|].
  split; [reflexivity|]. split; [reflexivity | discriminate].
Qed.


(* ===================================================================== *)
(** ** The signalling relay                                               *)
(* ===================================================================== *)


Lemma target_named (t sig : string) :
  t ≠ EmptyString → target (mkSignalData (Some t) sig) = Some t.
Proof. intros H. unfold target. simpl. by rewrite truthy_ne. Qed.




Lemma NoDup_list_filter {A : Type} (p : A → bool) (l : list A) :
  NoDup l → NoDup (List.filter p l).
Proof.
  induction 1 as [|a l Ha Hnd IH]; simpl; [constructor|].
  destruct (p a); [|exact IH]. constructor; [|exact IH].
  rewrite list_elem_of_In, List.filter_In, <- list_elem_of_In. tauto.
Qed.




Lemma coherent_w_two : coherent w_two "r".
Proof. apply coherentb_coherent. vm_compute. reflexivity. Qed.



(* ===================================================================== *)
(** ** The periodic cleanup                                               *)
(* ===================================================================== *)

Lemma isInUse_true (w : World) (path : string) :
  isInUse w path = true
  ↔ ∃ r vs, videoStates w !! r = Some vs ∧ filePath vs = path.
Proof.
  unfold isInUse. rewrite List.existsb_exists. split.
  - intros (vs & Hin & Heq). apply String.eqb_eq in Heq.
    apply list_elem_of_In, list_elem_of_fmap in Hin as ([r vs'] & -> & Hin).
    apply elem_of_map_to_list in Hin. by exists r, vs'.
  - intros (r & vs & Hvs & Heq). exists vs. split.
    + apply list_elem_of_In, list_elem_of_fmap. exists (r, vs). split; [done|].
      by apply elem_of_map_to_list.
    + by apply String.eqb_eq.
Qed.

Lemma isInUse_false (w : World) (path : string) :
  isInUse w path = false ↔ unreferenced w path.
Proof.
  unfold unreferenced. split.
  - intros H r vs Hvs Heq.
    assert (isInUse w path = true) by (apply isInUse_true; eauto). congruence.
  - intros H. destruct (isInUse w path) eqn:E; [|reflexivity].
    apply isInUse_true in E as (r & vs & Hvs & Heq). by destruct (H r vs Hvs).
Qed.

(** The test of the code is one threshold test: ten minutes when there is
    no playback state at all, one hour otherwise. *)
Lemma shouldDelete_threshold (w : World) (path : string) (fileAge : Z) :
  shouldDelete w path fileAge
  = negb (isInUse w path) && (threshold w <? fileAge).
Proof.
  unfold shouldDelete, threshold.
  destruct (size (videoStates w) =? 0)%nat eqn:Hsz.
  - apply Nat.eqb_eq, map_size_empty_inv in Hsz.
    assert (Hu : isInUse w path = false).
    { apply isInUse_false. intros r vs Hvs. rewrite Hsz in Hvs.
      by rewrite lookup_empty in Hvs. }
    rewrite Hu. cbn [negb andb].
    unfold ONE_HOUR, TEN_MINUTES.
    destruct (Z.ltb_spec (60 * 60 * 1000) fileAge);
      destruct (Z.ltb_spec (10 * 60 * 1000) fileAge); try reflexivity; lia.
  - cbn [andb]. by rewrite orb_false_r.
Qed.

Lemma janitorFile_attempted (w : World) (dir file : string) (now : Z) (f : File) :
  fs w !! pathJoin dir file = Some f →
  (janitorFile w dir file now).2 = true
  ↔ unreferenced w (pathJoin dir file) ∧ threshold w < now - mtime f.
Proof.
  intros Hf. unfold janitorFile. rewrite Hf, shouldDelete_threshold.
  rewrite <- isInUse_false.
  destruct (isInUse w (pathJoin dir file)); cbn [negb andb snd].
  - split; [discriminate | intros [? _]; discriminate].
  - destruct (Z.ltb_spec (threshold w) (now - mtime f)); cbn [snd].
    + split; auto.
    + split; [discriminate | intros [_ ?]; lia].
Qed.

Lemma janitorFile_frame (w : World) (dir file : string) (now : Z) :
  videoStates (janitorFile w dir file now).1 = videoStates w
  ∧ rooms (janitorFile w dir file now).1 = rooms w
  ∧ ∀ p, p ≠ pathJoin dir file →
         fs (janitorFile w dir file now).1 !! p = fs w !! p.
Proof.
  unfold janitorFile.
  destruct (fs w !! pathJoin dir file) as [f|]; [|done].
  destruct (shouldDelete w _ _); [|done].
  destruct (locked f); [done|]. simpl. repeat split.
  intros p Hp. by rewrite lookup_delete_ne.
Qed.

Lemma pathJoin_inj (dir a b : string) : pathJoin dir a = pathJoin dir b → a = b.
Proof.
  unfold pathJoin. intros H.
  apply (inj (String.app dir)) in H. by apply (inj (String.app "/")) in H.
Qed.

Lemma unreferenced_ext (w w' : World) (path : string) :
  videoStates w' = videoStates w → unreferenced w' path ↔ unreferenced w path.
Proof. intros H. unfold unreferenced. by rewrite H. Qed.

Lemma threshold_ext (w w' : World) :
  videoStates w' = videoStates w → threshold w' = threshold w.
Proof. intros H. unfold threshold. by rewrite H. Qed.

Lemma janitorPass_attempted_listed (w : World) (dir : string)
  (files : list string) (now : Z) (file : string) :
  file ∈ (janitorPass w dir files now).2 → file ∈ files.
Proof.
  revert w. induction files as [|x rest IH]; intros w; simpl.
  - trivial.
  - destruct (janitorFile w dir x now) as [w1 att].
    specialize (IH w1).
    destruct (janitorPass w1 dir rest now) as [w2 others]. simpl in *.
    destruct att; rewrite ?elem_of_cons; set_solver.
Qed.

(** C2 (as amended). In a pass over the listing of the uploads directory,
    the deletion of a listed file that can be stat'ed is attempted exactly
    when no playback state of any room refers to it and its age exceeds the
    threshold, the threshold being ten minutes when no playback state
    exists at all and one hour otherwise (whatever rooms are active). *)
Theorem C2_janitor_attempts_deletion (w : World) (dir : string)
  (files : list string) (now : Z) (file : string) (f : File) :
  NoDup files →
  file ∈ files →
  fs w !! pathJoin dir file = Some f →
  file ∈ (janitorPass w dir files now).2
  ↔ unreferenced w (pathJoin dir file)
    ∧ (if (size (videoStates w) =? 0)%nat then TEN_MINUTES else ONE_HOUR)
      < now - mtime f.
Proof.
  change (if (size (videoStates w) =? 0)%nat then TEN_MINUTES else ONE_HOUR)
    with (threshold w).
  intros Hnd. revert w. induction Hnd as [|x rest Hx Hnd IH]; intros w Hin Hf.
  - by apply elem_of_nil in Hin.
  - simpl. destruct (janitorFile_frame w dir x now) as (Fv & _ & Ffs).
    pose proof (janitorPass_attempted_listed (janitorFile w dir x now).1
                  dir rest now file) as Hsub.
    destruct (decide (file = x)) as [->|Hne].
    + pose proof (janitorFile_attempted w dir x now f Hf) as Hatt.
      destruct (janitorFile w dir x now) as [w1 att]. cbn [fst snd] in *.
      destruct (janitorPass w1 dir rest now) as [w2 others]. cbn [fst snd] in *.
      destruct att.
      * split; [intros _; by apply Hatt | intros _; left].
      * split; [intros H; by destruct (Hx (Hsub H)) | intros H; by apply Hatt in H].
    + apply elem_of_cons in Hin as [?|Hin]; [contradiction|].
      assert (Hp : pathJoin dir file ≠ pathJoin dir x).
      { intros E. by apply pathJoin_inj in E. }
      specialize (IH (janitorFile w dir x now).1 Hin).
      rewrite (Ffs _ Hp) in IH. specialize (IH Hf).
      rewrite (unreferenced_ext _ _ _ Fv), (threshold_ext _ _ Fv) in IH.
      destruct (janitorFile w dir x now) as [w1 att]. cbn [fst snd] in *.
      destruct (janitorPass w1 dir rest now) as [w2 others]. cbn [fst snd] in *.
      destruct att; [|exact IH].
      rewrite elem_of_cons. rewrite <- IH. naive_solver.
Qed.

Lemma C2_witness :
  "old.mp4" ∈ (janitorPass w_stale "uploads" ["old.mp4"] TWENTY_MINUTES).2
  ↔ unreferenced w_stale (pathJoin "uploads" "old.mp4")
    ∧ (if (size (videoStates w_stale) =? 0)%nat then TEN_MINUTES else ONE_HOUR)
      < TWENTY_MINUTES - 0.
Proof.
  apply (C2_janitor_attempts_deletion w_stale "uploads" ["old.mp4"]
           TWENTY_MINUTES "old.mp4" (mkFile 500 0 false)).
  - apply NoDup_singleton.
  - left.
  - reflexivity.
Defined.

(** C2 (as stated) fails: room ["r"] is active (alice sits in it) and has
    no playback state; a file of twenty minutes ago is referenced by no
    state.  With a room active the longer threshold of one hour would
    apply and the file would stay; the pass attempts its deletion (and
    deletes it). *)
Lemma C2_counterexample :
  size (rooms w_stale) = 1%nat
  ∧ unreferenced w_stale (pathJoin "uploads" "old.mp4")
  ∧ spec_threshold w_stale = ONE_HOUR
  ∧ spec_shouldDelete w_stale (pathJoin "uploads" "old.mp4")
      (TWENTY_MINUTES - 0) = false
  ∧ (janitorPass w_stale "uploads" ["old.mp4"] TWENTY_MINUTES).2 = ["old.mp4"]
  ∧ fs (janitorPass w_stale "uploads" ["old.mp4"] TWENTY_MINUTES).1
      !! pathJoin "uploads" "old.mp4" = None.
Proof.
  split; [reflexivity|]. split.
  { apply isInUse_false. reflexivity. }
  split; [reflexivity|]. split; [reflexivity|]. split; reflexivity.
Qed.


(* ===================================================================== *)
(** ** The registry and the Socket.IO rooms stay coherent                 *)
(* ===================================================================== *)

Lemma join_rooms (w : World) (sid : string) (data : JoinData) :
  rooms (join w sid data).1.1 !! joinRoomId data
  = Some (default [] (rooms w !! joinRoomId data)
          ++ [mkClient sid (joinName data) (joinIsHost data)])
  ∧ members (join w sid data).1.1 (joinRoomId data)
    = {[sid]} ∪ members w (joinRoomId data).
Proof.
  unfold join, members; simpl.
  destruct (rooms w !! joinRoomId data) eqn:Er; simpl;
    destruct (micStates w !! joinRoomId data); simpl;
    rewrite ?lookup_insert_eq, ?Er; simpl; rewrite ?lookup_insert_eq; done.
Qed.

(** [join] keeps the joined room coherent. *)
Lemma coherent_join (w : World) (sid : string) (data : JoinData) :
  coherent w (joinRoomId data) →
  coherent (join w sid data).1.1 (joinRoomId data).
Proof.
  intros Hco x. destruct (join_rooms w sid data) as [Hr Hm].
  rewrite Hm, Hr. cbn [default]. rewrite elem_of_union, elem_of_singleton, (Hco x).
  split.
  - intros [->|(cl & Hin & Hs)].
    + eexists. split; [apply elem_of_app; right; left | reflexivity].
    + exists cl. split; [apply elem_of_app; by left | exact Hs].
  - intros (cl & Hin & Hs). apply elem_of_app in Hin as [Hin|Hin].
    + right. by exists cl.
    + apply list_elem_of_singleton in Hin. subst cl. left. by rewrite <- Hs.
Qed.

(** A successful [movie-play] stamps the state with the clock. *)
Lemma moviePlay_host (w : World) (c : Conn) (vs : VideoState) (t : option Q)
  (now stamp : Z) :
  videoStates w !! connRoom c = Some vs →
  host vs = connName c →
  ∃ vs', videoStates (moviePlay w c t now stamp).1 !! connRoom c = Some vs'
         ∧ isPlaying vs' = true
         ∧ currentTime vs' = orZero t
         ∧ lastUpdateTime vs' = now
  ∧ (moviePlay w c t now stamp).2
    = emitToOthers w (connSocket c) (connRoom c) (MoviePlay t stamp).
Proof.
  intros Hvs Hh. unfold moviePlay. rewrite Hvs, Hh, String.eqb_refl. simpl.
  eexists. rewrite lookup_insert_eq. repeat split.
Qed.

(** The unguarded [fs.unlinkSync] of the empty-room branch: when the last
    member leaves a room whose state was not removed by the host branch
    and whose file cannot be unlinked, the handler throws after the room
    and its microphone states are deleted; the playback state stays. *)
Example empty_room_unlink_throws :
  ∃ w' out, disconnect w_held bob = Threw w' out
    ∧ rooms w' !! "r" = None
    ∧ micStates w' !! "r" = None
    ∧ is_Some (videoStates w' !! "r").
Proof.
  eexists. eexists. split; [vm_compute; reflexivity|].
  split; [reflexivity|]. split; [reflexivity|]. eexists. reflexivity.
Qed.

Lemma hostBranch_registry (w : World) (c : Conn) (b : bool) :
  rooms (hostBranch w c b).1 = rooms w
  ∧ ioRooms (hostBranch w c b).1 = ioRooms w.
Proof.
  unfold hostBranch.
  destruct (if b then videoStates w !! connRoom c else None) as [vs|]; [|done].
  unfold hostCleanup. cbn [fst].
  set (wa := match fs w !! filePath vs with
             | Some _ => default w (unlinkSync w (filePath vs))
             | None => w
             end).
  assert (Hwa : rooms wa = rooms w ∧ ioRooms wa = ioRooms w).
  { subst wa. unfold unlinkSync. destruct (fs w !! filePath vs) as [f|]; [|done].
    destruct (locked f); done. }
  destruct Hwa as [Hr Hio]. simpl.
  destruct (closeActiveStreams_frame
              (set_videoStates wa (delete (connRoom c) (videoStates wa)))
              (connRoom c)) as (Cr & _ & _ & _ & Cio).
  rewrite Cr, Cio. simpl. by rewrite Hr, Hio.
Qed.

Lemma emptyRoomCleanup_registry (w : World) (r : string) (w' : World) :
  emptyRoomCleanup w r = inl w' ∨ emptyRoomCleanup w r = inr w' →
  rooms w' = delete r (rooms w) ∧ ioRooms w' = ioRooms w.
Proof.
  unfold emptyRoomCleanup.
  set (w2 := match micStates (set_rooms w (delete r (rooms w))) !! r with
             | Some _ => _ | None => _ end).
  assert (H2 : rooms w2 = delete r (rooms w) ∧ ioRooms w2 = ioRooms w).
  { subst w2. simpl. destruct (micStates w !! r); done. }
  destruct H2 as [Hr Hio].
  assert (Hfin : ∀ w3 : World,
            rooms w3 = rooms w2 → ioRooms w3 = ioRooms w2 →
            rooms (cleanupOrphanedVideos (closeActiveStreams w3 r))
            = delete r (rooms w)
            ∧ ioRooms (cleanupOrphanedVideos (closeActiveStreams w3 r))
              = ioRooms w).
  { intros w3 H3r H3io. simpl.
    destruct (closeActiveStreams_frame w3 r) as (Cr & _ & _ & _ & Cio).
    by rewrite Cr, Cio, H3r, H3io. }
  destruct (videoStates w2 !! r) as [vs|].
  - destruct (fs w2 !! filePath vs) as [f|].
    + unfold unlinkSync. destruct (fs w2 !! filePath vs) as [f'|].
      * destruct (locked f').
        -- intros [[=]|[= <-]]. done.
        -- intros [[= <-]|[=]]. by apply Hfin.
      * intros [[=]|[= <-]]. done.
    + intros [[= <-]|[=]]. by apply Hfin.
  - intros [[= <-]|[=]]. by apply Hfin.
Qed.

(** [disconnect] keeps the room of the leaving session coherent, whether the
    handler completes or throws. *)
Lemma coherent_disconnect (w : World) (c : Conn) (l : list Client)
  (w' : World) (out : list Delivery) :
  rooms w !! connRoom c = Some l →
  coherent w (connRoom c) →
  disconnect w c = Done w' out ∨ disconnect w c = Threw w' out →
  coherent w' (connRoom c).
Proof.
  intros Hl Hco. rewrite (disconnect_stages w c l Hl). cbn zeta.
  set (w0 := ioLeaveAll w (connSocket c)).
  set (l' := remaining (connSocket c) l).
  destruct (leaveRoom_frame w0 c l') as (Lr & _ & _ & _ & Lio & _).
  destruct (hostBranch_registry (leaveRoom w0 c l').1 c (wasHost w c)) as [Hr Hio].
  set (w3 := (hostBranch (leaveRoom w0 c l').1 c (wasHost w c)).1) in *.
  assert (Hmem : ∀ v : World, ioRooms v = ioRooms w3 →
            members v (connRoom c) = members w (connRoom c) ∖ {[connSocket c]}).
  { intros v Hv. rewrite <- members_ioLeaveAll. unfold members.
    by rewrite Hv, Hio, Lio. }
  destruct (length l' =? 0)%nat eqn:Hlen.
  - apply Nat.eqb_eq, nil_length_inv in Hlen.
    destruct (emptyRoomCleanup w3 (connRoom c)) as [w4|w4] eqn:E;
      (intros [[= <- _]|[= <- _]];
       destruct (emptyRoomCleanup_registry w3 (connRoom c) w4) as [Er Eio];
       [by rewrite E; auto|];
       intros x; rewrite (Hmem w4 Eio), Er, lookup_delete_eq; cbn [default];
       split;
       [ intros [Hx Hne]%elem_of_difference; apply Hco in Hx as (cl & Hin & Hs);
         rewrite Hl in Hin;
         assert (Hcl : cl ∈ l') by (apply remaining_elem; split; [done | set_solver]);
         rewrite Hlen in Hcl; by apply elem_of_nil in Hcl
       | intros (cl & Hin & _); by apply elem_of_nil in Hin ]).
  - intros [[= <- _]|[=]]. intros x. rewrite (Hmem w3 eq_refl), Hr, Lr.
    rewrite lookup_insert_eq. cbn [default]. rewrite elem_of_difference, (Hco x), Hl.
    cbn [default]. split.
    + intros [(cl & Hin & Hs) Hne]. exists cl. split; [|done].
      apply remaining_elem. split; [done | set_solver].
    + intros (cl & [Hin Hne]%remaining_elem & Hs). split; [by exists cl | set_solver].
Qed.

(* ===================================================================== *)
(** ** Numbers in and out of strings                                      *)
(* ===================================================================== *)

Ltac eval_digit :=
  match goal with
  | |- context [Js.digitVal ?c] =>
      let v := eval vm_compute in (Js.digitVal c) in
      change (Js.digitVal c) with v; cbn iota
  end.

Lemma digits_from_pos (d : Decimal.uint) (acc : positive) :
  Js.digits (NilEmpty.string_of_uint d) (Some (Z.pos acc))
  = Some (Z.pos (Pos.of_uint_acc d acc)).
Proof.
  revert acc. induction d as [|d IH|d IH|d IH|d IH|d IH|d IH|d IH|d IH|d IH|d IH];
    intros acc; [reflexivity|..];
    cbn [NilEmpty.string_of_uint Js.digits Pos.of_uint_acc];
    eval_digit; rewrite <- IH; do 2 f_equal; simpl; lia.
Qed.

Lemma digits_from_zero (d : Decimal.uint) :
  Js.digits (NilEmpty.string_of_uint d) (Some 0)
  = Some (Z.of_N (Pos.of_uint d)).
Proof.
  induction d as [|d IH|d IH|d IH|d IH|d IH|d IH|d IH|d IH|d IH|d IH];
    [reflexivity | exact IH | ..];
    cbn [NilEmpty.string_of_uint Js.digits Pos.of_uint];
    eval_digit; apply (digits_from_pos d).
Qed.

Lemma parseInt_uint (d : Decimal.uint) :
  d ≠ Decimal.Nil →
  Js.parseInt (NilEmpty.string_of_uint d) = Some (Z.of_N (Pos.of_uint d)).
Proof.
  intros Hd. rewrite <- digits_from_zero.
  destruct d; [contradiction | reflexivity ..].
Qed.

Lemma string_of_uint_nonnil (d : Decimal.uint) :
  d ≠ Decimal.Nil → NilZero.string_of_uint d = NilEmpty.string_of_uint d.
Proof. destruct d; [contradiction | reflexivity ..]. Qed.

(** [parseInt] reads back what a template literal wrote. *)
Lemma parseInt_show (n : Z) : Js.parseInt (Js.show (Some n)) = Some n.
Proof.
  unfold Js.show. destruct n as [|p|p]; [reflexivity| |];
    cbn [Z.to_int NilZero.string_of_int];
    pose proof (DecimalPos.Unsigned.to_uint_nonnil p) as Hp;
    rewrite (string_of_uint_nonnil _ Hp).
  - rewrite (parseInt_uint _ Hp), DecimalPos.Unsigned.of_to. reflexivity.
  - pose proof (parseInt_uint _ Hp) as H.
    rewrite DecimalPos.Unsigned.of_to in H.
    assert (Hd : Js.digits (NilEmpty.string_of_uint (Pos.to_uint p)) None
                 = Some (Z.pos p)).
    { etransitivity; [|exact H].
      destruct (Pos.to_uint p); [contradiction | reflexivity ..]. }
    unfold Js.parseInt.
    change (Js.trimStart (String "-" ?s)) with (String "-" s).
    cbn iota. rewrite Hd. reflexivity.
Qed.

Lemma app_cons (c : ascii) (a b : string) :
  String c a +:+ b = String c (a +:+ b).
Proof. reflexivity. Qed.

Lemma app_nil (b : string) : EmptyString +:+ b = b.
Proof. reflexivity. Qed.

Lemma split_cons (s : string) : ∃ p ps, Js.split "-" s = p :: ps.
Proof.
  induction s as [|c s (p & ps & IH)]; simpl; [by eexists _, _|].
  destruct (Ascii.eqb c "-"); [by eexists _, _|]. rewrite IH. by eexists _, _.
Qed.

Lemma split_uint (d : Decimal.uint) :
  Js.split "-" (NilEmpty.string_of_uint d) = [NilEmpty.string_of_uint d].
Proof.
  induction d; [reflexivity|..];
    cbn [NilEmpty.string_of_uint Js.split]; rewrite IHd; reflexivity.
Qed.

(** The decimal form of a number that is not negative has no dash. *)
Lemma split_show (n : Z) :
  0 ≤ n → Js.split "-" (Js.show (Some n)) = [Js.show (Some n)].
Proof.
  intros Hn. unfold Js.show. destruct n as [|p|p]; [reflexivity| |lia].
  cbn [Z.to_int NilZero.string_of_int].
  rewrite (string_of_uint_nonnil _ (DecimalPos.Unsigned.to_uint_nonnil p)).
  apply split_uint.
Qed.

Lemma split_dash (a b : string) :
  Js.split "-" a = [a] →
  Js.split "-" (a +:+ String "-" b) = a :: Js.split "-" b.
Proof.
  induction a as [|c a IH]; intros Ha.
  - reflexivity.
  - rewrite app_cons. simpl in *.
    destruct (Ascii.eqb c "-"); [discriminate|].
    destruct (split_cons a) as (p & ps & E). rewrite E in Ha.
    injection Ha as -> ->. rewrite IH by exact E. reflexivity.
Qed.

Lemma prefix_app (pat x : string) : String.prefix pat (pat +:+ x) = true.
Proof.
  induction pat as [|a pat IH].
  - by destruct x.
  - rewrite app_cons. simpl. by destruct (ascii_dec a a).
Qed.

Lemma dropn_app (pat x : string) : Js.dropn (String.length pat) (pat +:+ x) = x.
Proof. induction pat as [|a pat IH]; [reflexivity | exact IH]. Qed.

Lemma removeFirst_prefix (pat x : string) : Js.removeFirst pat (pat +:+ x) = x.
Proof.
  assert (E : ∀ s, Js.removeFirst pat s
                   = if String.prefix pat s
                     then Js.dropn (String.length pat) s
                     else match s with
                          | EmptyString => EmptyString
                          | String c s' => String c (Js.removeFirst pat s')
                          end) by (by intros []).
  by rewrite E, prefix_app, dropn_app.
Qed.

Lemma rangeParts_bytesRange (s e : Z) :
  0 ≤ s → 0 ≤ e →
  rangeParts (bytesRange s e) = [Js.show (Some s); Js.show (Some e)].
Proof.
  intros Hs He. unfold rangeParts, bytesRange.
  rewrite removeFirst_prefix.
  change ("-" +:+ ?b) with (String "-" b).
  rewrite split_dash by by apply split_show. by rewrite split_show.
Qed.

Lemma rangeParts_bytesFrom (s : Z) :
  0 ≤ s → rangeParts (bytesFrom s) = [Js.show (Some s); EmptyString].
Proof.
  intros Hs. unfold rangeParts, bytesFrom.
  rewrite removeFirst_prefix.
  change (Js.show (Some s) +:+ "-")
    with (Js.show (Some s) +:+ String "-" EmptyString).
  by rewrite split_dash by by apply split_show.
Qed.

Lemma bytes_truthy (x : string) : Js.truthy ("bytes=" +:+ x) = true.
Proof. reflexivity. Qed.

Lemma show_truthy (n : Z) : Js.truthy (Js.show (Some n)) = true.
Proof.
  unfold Js.show. destruct n as [|p|p]; [reflexivity| |reflexivity].
  cbn [Z.to_int NilZero.string_of_int].
  pose proof (DecimalPos.Unsigned.to_uint_nonnil p) as Hp.
  rewrite (string_of_uint_nonnil _ Hp).
  destruct (Pos.to_uint p); [contradiction | reflexivity ..].
Qed.



(** X2. An open-ended request [bytes=s-] with [0 <= s < size] is served to
    the last byte: [Content-Range: bytes s-(size-1)/size] and
    [Content-Length: size - s]. *)
Theorem X2_open_ended_range (w : World) (roomId : string)
  (vs : VideoState) (f : File) (s : Z) :
  hasAsset w roomId vs f →
  0 ≤ s → s < fsize f → fsize f - 1 ≤ MAX_SAFE_INTEGER →
  getMovie w roomId (Some (bytesFrom s))
  = Done (served w roomId)
      [CreateReadStream (nextStream w) (filePath vs)
         (Some (s, fsize f - 1));
       TrackStream roomId (nextStream w);
       WriteHead 206
         (mkHead
            (Some ("bytes " +:+ Js.show (Some s) +:+ "-"
                   +:+ Js.show (Some (fsize f - 1))
                   +:+ "/" +:+ Js.show (Some (fsize f))))
            (Some "bytes")
            (Some (fsize f - s)));
       Pipe (nextStream w)].
Proof.
  intros (Hvs & Hp & Hf) Hs Hlt Hmax.
  rewrite (getMovie_range w roomId (bytesFrom s) vs f s (fsize f - 1));
    try assumption; try lia.
  - unfold rangeHead, chunksize, Js.add, Js.sub.
    replace (fsize f - 1 - s + 1) with (fsize f - s) by lia. reflexivity.
  - discriminate.
  - unfold rangeStart. rewrite rangeParts_bytesFrom by lia. apply parseInt_show.
  - unfold rangeEnd. by rewrite rangeParts_bytesFrom by lia.
Qed.

Lemma X2_witness :
  getMovie w_film "r" (Some (bytesFrom 400))
  = Done (served w_film "r")
      [CreateReadStream 0 "uploads/movie-r-1.mp4" (Some (400, 999));
       TrackStream "r" 0%nat;
       WriteHead 206
         (mkHead (Some "bytes 400-999/1000") (Some "bytes") (Some 600));
       Pipe 0].
Proof.
  apply (X2_open_ended_range w_film "r" vs_paused (mkFile 1000 1000 false) 400).
  - repeat split. discriminate.
  - lia.
  - simpl. lia.
  - unfold MAX_SAFE_INTEGER. simpl. lia.
Defined.

Lemma getMovie_throws (w : World) (roomId r : string) (vs : VideoState)
  (f : File) :
  hasAsset w roomId vs f →
  Js.truthy r = true →
  readStreamRange (rangeStart r) (rangeEnd r (fsize f)) = None →
  getMovie w roomId (Some r) = Threw w [].
Proof.
  intros (Hvs & Hp & Hf) Hr Hrange. unfold getMovie.
  rewrite Hvs, (truthy_ne _ Hp). cbn [negb]. rewrite Hf.
  unfold givenHeader. by rewrite Hr, Hrange.
Qed.

(** X3. A range whose start does not read as a number (a suffix range
    [bytes=-n] in particular) or lies above its end makes
    [fs.createReadStream] throw: the handler throws before anything is
    registered or written, and the world is as it was. *)
Theorem X3_unreadable_range_throws (w : World) (roomId : string)
  (vs : VideoState) (f : File) :
  hasAsset w roomId vs f →
  (∀ x, getMovie w roomId (Some ("bytes=-" +:+ x)) = Threw w [])
  ∧ (∀ s e, 0 ≤ e → e < s →
            getMovie w roomId (Some (bytesRange s e)) = Threw w []).
Proof.
  intros Hasset. split.
  - intros x. apply (getMovie_throws w roomId _ vs f Hasset); [reflexivity|].
    assert (Hs : rangeStart ("bytes=-" +:+ x) = None).
    { unfold rangeStart, rangeParts.
      change ("bytes=-" +:+ x) with ("bytes=" +:+ String "-" x).
      rewrite removeFirst_prefix. reflexivity. }
    by rewrite Hs.
  - intros s e He Hes.
    apply (getMovie_throws w roomId _ vs f Hasset); [reflexivity|].
    unfold rangeStart, rangeEnd. rewrite rangeParts_bytesRange by lia.
    change ([?a; ?b] !! 1%nat) with (Some b).
    change ([?a; ?b] !! 0%nat) with (Some a). unfold default. cbn [id].
    rewrite show_truthy, !parseInt_show.
    unfold readStreamRange.
    destruct (Z.leb_spec s e); [lia|]. by rewrite !andb_false_r.
Qed.

Lemma X3_witness :
  (∀ x, getMovie w_film "r" (Some ("bytes=-" +:+ x)) = Threw w_film [])
  ∧ (∀ s e, 0 ≤ e → e < s →
            getMovie w_film "r" (Some (bytesRange s e)) = Threw w_film []).
Proof.
  apply (X3_unreadable_range_throws w_film "r" vs_paused
           (mkFile 1000 1000 false)).
  repeat split. discriminate.
Defined.

(* ===================================================================== *)
(** ** The life of a stream handle                                        *)
(* ===================================================================== *)

(** The three ways [GET /movie/:roomId] ends. *)
Lemma getMovie_cases (w : World) (roomId : string) (range : option string) :
  (∃ e, getMovie w roomId range = Done w [SendJson 404 e])
  ∨ getMovie w roomId range = Threw w []
  ∨ (∃ path se status head,
       getMovie w roomId range
       = Done (served w roomId)
           [CreateReadStream (nextStream w) path se;
            TrackStream roomId (nextStream w);
            WriteHead status head;
            Pipe (nextStream w)]).
Proof.
  unfold getMovie.
  destruct (videoStates w !! roomId) as [vs|]; [|left; by eexists].
  destruct (negb (Js.truthy (filePath vs))); [left; by eexists|].
  destruct (fs w !! filePath vs) as [f|]; [|left; by eexists].
  destruct (givenHeader range) as [r|].
  - destruct (readStreamRange _ _); [|by right; left].
    right; right. by eexists _, _, _, _.
  - right; right. by eexists _, _, _, _.
Qed.

(** X4. [GET /movie/:roomId] answers 404 exactly when the room has no
    playback state, or the state has no file path, or the file is not on
    disk; it then changes nothing. *)
Theorem X4_not_found_iff_no_asset (w : World) (roomId : string)
  (range : option string) :
  (∃ e, getMovie w roomId range = Done w [SendJson 404 e])
  ↔ (∀ vs f, ¬ hasAsset w roomId vs f).
Proof.
  unfold hasAsset, getMovie. split.
  - intros [e He] vs f (Hvs & Hp & Hf). rewrite Hvs, (truthy_ne _ Hp) in He.
    cbn [negb] in He. rewrite Hf in He.
    destruct (givenHeader range); [destruct (readStreamRange _ _)|];
      discriminate.
  - intros Hno. destruct (videoStates w !! roomId) as [vs|]; [|by eexists].
    destruct (String.eqb_spec (filePath vs) EmptyString) as [E|Hp].
    { rewrite E. by eexists. }
    rewrite (truthy_ne _ Hp). cbn [negb].
    destruct (fs w !! filePath vs) as [f|] eqn:Hf; [|by eexists].
    by destruct (Hno vs f).
Qed.

Lemma X4_witness :
  ∃ e, getMovie w_alice "r" (Some "bytes=0-99") = Done w_alice [SendJson 404 e].
Proof.
  apply (X4_not_found_iff_no_asset w_alice "r" (Some "bytes=0-99")).
  intros vs f (Hvs & _). discriminate.
Defined.

(** X5. Without a [Range] header, or with an empty one, the whole asset is
    served: status 200, [Content-Length] the size of the file, no
    [Content-Range]; the stream is registered all the same. *)
Theorem X5_full_request_served (w : World) (roomId : string)
  (range : option string) (vs : VideoState) (f : File) :
  hasAsset w roomId vs f →
  range = None ∨ range = Some EmptyString →
  getMovie w roomId range
  = Done (served w roomId)
      [CreateReadStream (nextStream w) (filePath vs) None;
       TrackStream roomId (nextStream w);
       WriteHead 200 (mkHead None None (Some (fsize f)));
       Pipe (nextStream w)]
  ∧ nextStream w ∈ handles (served w roomId) roomId.
Proof.
  intros (Hvs & Hp & Hf) Hr. split; [|apply served_registers].
  unfold getMovie. rewrite Hvs, (truthy_ne _ Hp). cbn [negb]. rewrite Hf.
  by destruct Hr as [-> | ->].
Qed.

Lemma X5_witness :
  getMovie w_film "r" (Some EmptyString)
  = Done (served w_film "r")
      [CreateReadStream 0 "uploads/movie-r-1.mp4" None;
       TrackStream "r" 0%nat;
       WriteHead 200 (mkHead None None (Some 1000));
       Pipe 0]
  ∧ 0%nat ∈ handles (served w_film "r") "r".
Proof.
  apply (X5_full_request_served w_film "r" (Some EmptyString) vs_paused
           (mkFile 1000 1000 false)).
  - repeat split. discriminate.
  - by right.
Defined.

Lemma handles_served (w : World) (roomId r : string) :
  handles (served w roomId) r
  = if decide (r = roomId) then {[nextStream w]} ∪ handles w roomId
    else handles w r.
Proof.
  unfold handles, served, trackStream; simpl.
  destruct (decide (r = roomId)) as [->|Hne].
  - by rewrite lookup_insert_eq.
  - by rewrite lookup_insert_ne.
Qed.

Lemma handles_cleanupStream (w : World) (roomId r : string) (h : nat) :
  handles (cleanupStream w roomId h) r
  = if decide (r = roomId) then handles w roomId ∖ {[h]} else handles w r.
Proof.
  unfold handles, cleanupStream.
  destruct (activeStreams w !! roomId) as [s|] eqn:E; simpl.
  - destruct (decide (r = roomId)) as [->|Hne].
    + by rewrite lookup_insert_eq.
    + by rewrite lookup_insert_ne.
  - destruct (decide (r = roomId)) as [->|Hne]; [|done].
    rewrite E. simpl. set_solver.
Qed.

(** X6. While handles are numbered by the requests, a served request
    registers a handle that no room holds yet, next to the handles the room
    has; the other rooms keep theirs; and when the stream ends, its
    [cleanupStream] gives the room back the handles it had. *)
Theorem X6_serve_registers_fresh_handle (w w' : World) (roomId : string)
  (range : option string) (tr : list Effect) (h : nat) :
  streamsFresh w →
  getMovie w roomId range = Done w' tr →
  TrackStream roomId h ∈ tr →
  (∀ r, h ∉ handles w r)
  ∧ handles w' roomId = {[h]} ∪ handles w roomId
  ∧ (∀ r, r ≠ roomId → handles w' r = handles w r)
  ∧ streamsFresh w'
  ∧ handles (cleanupStream w' roomId h) roomId = handles w roomId.
Proof.
  intros Hfresh Hget Hin.
  assert (Hw : w' = served w roomId ∧ h = nextStream w).
  { destruct (getMovie_cases w roomId range)
      as [[e E]|[E|(path & se & st & hd & E)]]; rewrite E in Hget.
    - injection Hget as <- <-.
      apply list_elem_of_singleton in Hin. discriminate.
    - discriminate.
    - injection Hget as <- <-. split; [reflexivity|].
      repeat (apply elem_of_cons in Hin as [Hin|Hin]; [try discriminate|]).
      + by injection Hin.
      + by apply elem_of_nil in Hin. }
  destruct Hw as [-> ->].
  assert (Hnew : ∀ r, nextStream w ∉ handles w r).
  { intros r Hr. apply Hfresh in Hr. lia. }
  split; [exact Hnew|]. split.
  { rewrite handles_served. by rewrite decide_True. }
  split.
  { intros r Hne. rewrite handles_served. by rewrite decide_False. }
  split.
  { intros r h' Hh'. rewrite handles_served in Hh'.
    change (nextStream (served w roomId)) with (S (nextStream w)).
    destruct (decide (r = roomId)).
    - apply elem_of_union in Hh' as [->%elem_of_singleton|Hh']; [lia|].
      apply Hfresh in Hh'. lia.
    - apply Hfresh in Hh'. lia. }
  rewrite handles_cleanupStream, decide_True by done.
  rewrite handles_served, decide_True by done.
  specialize (Hnew roomId). set_solver.
Qed.

Lemma streamsFresh_w_streaming : streamsFresh w_streaming.
Proof.
  assert (E : activeStreams w_streaming = {["r" := {[0%nat]}]})
    by (vm_compute; reflexivity).
  intros r h Hh. unfold handles in Hh. rewrite E in Hh.
  change (nextStream w_streaming) with 1%nat.
  destruct (decide (r = "r")) as [->|Hne].
  - rewrite lookup_singleton_eq in Hh. simpl in Hh.
    apply elem_of_singleton in Hh. lia.
  - rewrite lookup_singleton_ne in Hh by done. set_solver.
Qed.

Lemma X6_witness :
  (∀ r, 1%nat ∉ handles w_streaming r)
  ∧ handles (served w_streaming "r") "r" = {[1%nat]} ∪ handles w_streaming "r"
  ∧ (∀ r, r ≠ "r" → handles (served w_streaming "r") r = handles w_streaming r)
  ∧ streamsFresh (served w_streaming "r")
  ∧ handles (cleanupStream (served w_streaming "r") "r" 1) "r"
    = handles w_streaming "r".
Proof.
  apply (X6_serve_registers_fresh_handle w_streaming (served w_streaming "r")
           "r" (Some "bytes=100-199")
           [CreateReadStream 1 "uploads/movie-r-1.mp4" (Some (100, 199));
            TrackStream "r" 1%nat;
            WriteHead 206
              (mkHead (Some "bytes 100-199/1000") (Some "bytes") (Some 100));
            Pipe 1]).
  - exact streamsFresh_w_streaming.
  - reflexivity.
  - right; left.
Defined.

(** X7. [cleanupStream] takes the one handle out of the room's set and
    destroys the stream; run again (the stream's [end] and the response's
    [close] both call it) it changes nothing more; and run after
    [closeActiveStreams] closed the room's streams, it changes nothing. *)
Theorem X7_cleanupStream_once (w : World) (roomId : string) (h : nat) :
  handles (cleanupStream w roomId h) roomId = handles w roomId ∖ {[h]}
  ∧ destroyed (cleanupStream w roomId h) = {[h]} ∪ destroyed w
  ∧ cleanupStream (cleanupStream w roomId h) roomId h
    = cleanupStream w roomId h
  ∧ (h ∈ handles w roomId →
     cleanupStream (closeActiveStreams w roomId) roomId h
     = closeActiveStreams w roomId).
Proof.
  split. { rewrite handles_cleanupStream. by rewrite decide_True. }
  split.
  { unfold cleanupStream. by destruct (activeStreams w !! roomId). }
  split.
  - unfold cleanupStream.
    destruct (activeStreams w !! roomId) as [s|] eqn:E; simpl.
    + rewrite lookup_insert_eq. simpl. unfold set_destroyed, set_activeStreams.
      simpl. f_equal.
      * rewrite insert_insert_eq. f_equal. set_solver.
      * set_solver.
    + rewrite E. unfold set_destroyed. simpl. f_equal. set_solver.
  - unfold handles, closeActiveStreams, cleanupStream.
    destruct (activeStreams w !! roomId) as [s|] eqn:E; simpl; [|set_solver].
    intros Hh. destruct (0 <? size s)%nat eqn:Hs.
    + simpl. rewrite lookup_delete_eq.
      unfold set_destroyed, set_activeStreams. simpl. f_equal.
      rewrite destroyAll_union. set_solver.
    + apply size_zero_empty in Hs. set_solver.
Qed.

Lemma X7_witness :
  handles (cleanupStream w_streaming "r" 0) "r" = handles w_streaming "r" ∖ {[0%nat]}
  ∧ destroyed (cleanupStream w_streaming "r" 0) = {[0%nat]} ∪ destroyed w_streaming
  ∧ cleanupStream (cleanupStream w_streaming "r" 0) "r" 0
    = cleanupStream w_streaming "r" 0
  ∧ cleanupStream (closeActiveStreams w_streaming "r") "r" 0
    = closeActiveStreams w_streaming "r".
Proof.
  destruct (X7_cleanupStream_once w_streaming "r" 0) as (H1 & H2 & H3 & H4).
  split; [exact H1|]. split; [exact H2|]. split; [exact H3|].
  apply H4.
  assert (E : handles w_streaming "r" = {[0%nat]}) by (vm_compute; reflexivity).
  rewrite E. by apply elem_of_singleton.
Defined.

(* ===================================================================== *)
(** ** Joining a room                                                     *)
(* ===================================================================== *)

(** What [join] emits, in order. *)
Lemma join_out (w : World) (sid : string) (data : JoinData) :
  (join w sid data).2
  = ((λ n, (sid, ExistingPeer n))
       <$> (userName <$> sessions w (joinRoomId data)))
    ++ micReplay sid (joinName data)
         (<[joinName data := false]> (mics w (joinRoomId data)))
    ++ emitToOthers (ioJoin w sid (joinRoomId data)) sid (joinRoomId data)
         (NewPeer (joinName data))
    ++ match videoStates w !! joinRoomId data with
       | Some vs => [videoSync sid vs (currentTime vs)]
       | None => []
       end.
Proof.
  unfold join, sessions, mics, emitToOthers, members; simpl.
  destruct (rooms w !! joinRoomId data) eqn:Er; simpl;
    destruct (micStates w !! joinRoomId data) eqn:Em; simpl;
    rewrite ?lookup_insert_eq, ?Er, ?Em; simpl;
    rewrite ?lookup_insert_eq; reflexivity.
Qed.

Lemma join_world (w : World) (sid : string) (data : JoinData) :
  let w' := (join w sid data).1.1 in
  rooms w' = <[joinRoomId data :=
                 sessions w (joinRoomId data)
                 ++ [mkClient sid (joinName data) (joinIsHost data)]]>
               (rooms w)
  ∧ micStates w' = <[joinRoomId data :=
                       <[joinName data := false]> (mics w (joinRoomId data))]>
                     (micStates w)
  ∧ ioRooms w' = <[joinRoomId data :=
                     {[sid]} ∪ members w (joinRoomId data)]> (ioRooms w)
  ∧ videoStates w' = videoStates w
  ∧ activeStreams w' = activeStreams w
  ∧ fs w' = fs w
  ∧ destroyed w' = destroyed w
  ∧ nextStream w' = nextStream w
  ∧ timers w' = timers w.
Proof.
  unfold join, sessions, mics; simpl.
  destruct (rooms w !! joinRoomId data) eqn:Er; simpl;
    destruct (micStates w !! joinRoomId data) eqn:Em; simpl;
    rewrite ?lookup_insert_eq, ?Er, ?Em; simpl;
    rewrite ?lookup_insert_eq, ?insert_insert_eq; done.
Qed.

Lemma filter_fmap_all {A : Type} (p : Event → bool) (f : A → Event) (l : list A) :
  (∀ a, p (f a) = true) → List.filter p (f <$> l) = f <$> l.
Proof.
  intros H. induction l as [|a l IH]; [reflexivity|].
  rewrite fmap_cons. cbn [List.filter]. by rewrite H, IH.
Qed.

Lemma filter_emitToOthers (p : Event → bool) (w : World) (sid room x : string)
  (ev : Event) :
  List.filter p (received x (emitToOthers w sid room ev))
  = if bool_decide (x ∈ members w room ∧ x ≠ sid) && p ev then [ev] else [].
Proof.
  rewrite received_emitToOthers.
  destruct (bool_decide _); simpl; [|reflexivity]. by destruct (p ev).
Qed.

Lemma received_micReplay (x sid name : string) (m : gmap string bool) :
  received x (micReplay sid name m)
  = if String.eqb sid x
    then (λ e, MicStatus e.1 e.2)
           <$> List.filter (λ e, negb (String.eqb e.1 name)) (map_to_list m)
    else [].
Proof. unfold micReplay. apply received_to_one. Qed.

Lemma received_sync (x sid : string) (o : option VideoState) :
  received x match o with
             | Some vs => [videoSync sid vs (currentTime vs)]
             | None => []
             end
  = if String.eqb sid x
    then match o with
         | Some vs => [(videoSync sid vs (currentTime vs)).2]
         | None => []
         end
    else [].
Proof.
  destruct o as [vs|]; unfold received, videoSync; simpl;
    by destruct (String.eqb sid x).
Qed.

(** X8. The joining session is told of every session that sat in the room
    before it, once each, in the order they joined: one [existing-peer]
    per entry of the room's list. *)
Theorem X8_join_existing_peer_replay (w : World) (sid : string)
  (data : JoinData) :
  List.filter isExistingPeer (received sid (join w sid data).2)
  = ExistingPeer <$> (userName <$> sessions w (joinRoomId data)).
Proof.
  rewrite join_out, !received_app, !List.filter_app.
  rewrite received_to_one, String.eqb_refl.
  rewrite filter_fmap_all by reflexivity.
  rewrite received_micReplay, String.eqb_refl.
  rewrite filter_fmap_none by reflexivity.
  rewrite filter_emitToOthers, andb_false_r.
  rewrite received_sync, String.eqb_refl.
  destruct (videoStates w !! joinRoomId data); simpl; by rewrite app_nil_r.
Qed.

Lemma members_ioJoin (w : World) (sid room : string) :
  members (ioJoin w sid room) room = {[sid]} ∪ members w room.
Proof. unfold members, ioJoin; simpl. by rewrite lookup_insert_eq. Qed.

(** X9. On a join, every socket that sits in the Socket.IO room of the
    room, the joining one apart, gets exactly one [new-peer] naming the
    joiner; no other socket gets one.  When the Socket.IO room is coherent
    with the registry these are the sessions listed before the join. *)
Theorem X9_join_new_peer_once (w : World) (sid : string) (data : JoinData) :
  (∀ x, List.filter isNewPeer (received x (join w sid data).2)
        = if bool_decide (x ∈ members w (joinRoomId data) ∧ x ≠ sid)
          then [NewPeer (joinName data)] else [])
  ∧ (coherent w (joinRoomId data) →
     ∀ client, client ∈ sessions w (joinRoomId data) →
               socketId client ≠ sid →
               List.filter isNewPeer
                 (received (socketId client) (join w sid data).2)
               = [NewPeer (joinName data)]).
Proof.
  assert (H : ∀ x, List.filter isNewPeer (received x (join w sid data).2)
        = if bool_decide (x ∈ members w (joinRoomId data) ∧ x ≠ sid)
          then [NewPeer (joinName data)] else []).
  { intros x. rewrite join_out, !received_app, !List.filter_app.
    rewrite received_to_one, received_micReplay, received_sync.
    rewrite filter_emitToOthers, members_ioJoin, andb_true_r.
    assert (E : bool_decide (x ∈ {[sid]} ∪ members w (joinRoomId data) ∧ x ≠ sid)
                = bool_decide (x ∈ members w (joinRoomId data) ∧ x ≠ sid)).
    { apply bool_decide_ext. set_solver. }
    rewrite E.
    destruct (String.eqb sid x).
    - rewrite !filter_fmap_none by reflexivity.
      destruct (videoStates w !! joinRoomId data); simpl; by rewrite app_nil_r.
    - simpl. by rewrite app_nil_r. }
  split; [exact H|].
  intros Hco client Hin Hne. rewrite H.
  rewrite bool_decide_eq_true_2; [reflexivity|].
  split; [|exact Hne]. apply Hco. by exists client.
Qed.

Lemma X9_witness :
  List.filter isNewPeer
    (received "s1" (join (connect w_film "s2") "s2"
                      (mkJoinData "r" "bob" false)).2)
  = [NewPeer "bob"].
Proof.
  destruct (X9_join_new_peer_once (connect w_film "s2") "s2"
              (mkJoinData "r" "bob" false)) as [_ H].
  apply (H ltac:(apply coherentb_coherent; vm_compute; reflexivity)
           (mkClient "s1" "alice" true)).
  - left.
  - discriminate.
Defined.

Lemma list_filter_Permutation {A : Type} (p : A → bool) (l l' : list A) :
  l ≡ₚ l' → List.filter p l ≡ₚ List.filter p l'.
Proof.
  induction 1 as [|x l l' _ IH|x y l|l1 l2 l3 _ IH1 _ IH2]; simpl.
  - reflexivity.
  - destruct (p x); [by constructor | exact IH].
  - destruct (p x), (p y); try reflexivity. constructor.
  - by etransitivity.
Qed.

Lemma list_filter_id {A : Type} (p : A → bool) (l : list A) :
  (∀ x, x ∈ l → p x = true) → List.filter p l = l.
Proof.
  induction l as [|a l IH]; intros H; simpl; [reflexivity|].
  rewrite (H a) by (left; reflexivity). f_equal. apply IH.
  intros x Hx. apply H. by right.
Qed.

(** The entries of a map of microphone states but the one of [name]. *)
Lemma mic_entries_but (name : string) (m : gmap string bool) :
  List.filter (λ e, negb (String.eqb e.1 name))
    (map_to_list (<[name := false]> m))
  ≡ₚ map_to_list (delete name m).
Proof.
  rewrite <- (insert_delete_eq m).
  rewrite (list_filter_Permutation _ _ _
             (map_to_list_insert (delete name m) name false
                (lookup_delete_eq m name))).
  simpl. rewrite String.eqb_refl. simpl.
  rewrite list_filter_id; [reflexivity|].
  intros [k v] Hin. apply elem_of_map_to_list in Hin. simpl.
  destruct (String.eqb_spec k name) as [->|]; [|reflexivity].
  by rewrite lookup_delete_eq in Hin.
Qed.

(** X10. A join records the joiner as unmuted, over whatever state its
    name had in the room, and replays to the joiner the microphone state
    of every other name of the room, once each. *)
Theorem X10_join_mic_replay (w : World) (sid : string) (data : JoinData) :
  mics (join w sid data).1.1 (joinRoomId data)
  = <[joinName data := false]> (mics w (joinRoomId data))
  ∧ List.filter isMicStatus (received sid (join w sid data).2)
    ≡ₚ (λ e, MicStatus e.1 e.2)
         <$> map_to_list (delete (joinName data) (mics w (joinRoomId data))).
Proof.
  split.
  - destruct (join_world w sid data) as (_ & Hm & _).
    unfold mics at 1. by rewrite Hm, lookup_insert_eq.
  - rewrite join_out, !received_app, !List.filter_app.
    rewrite received_to_one, String.eqb_refl.
    rewrite filter_fmap_none by reflexivity.
    rewrite received_micReplay, String.eqb_refl.
    rewrite filter_fmap_all by reflexivity.
    rewrite filter_emitToOthers, andb_false_r.
    rewrite received_sync, String.eqb_refl.
    assert (E : List.filter isMicStatus
                  match videoStates w !! joinRoomId data with
                  | Some vs => [(videoSync sid vs (currentTime vs)).2]
                  | None => []
                  end = []) by (by destruct (videoStates w !! joinRoomId data)).
    rewrite E. simpl. rewrite app_nil_r.
    apply fmap_Permutation, mic_entries_but.
Qed.

(** X11. A [mic-status] of a session whose room has microphone states
    records the flag under the session's name and tells every other socket
    of the room once; a session that joins later under another name gets
    that flag in its replay. *)
Theorem X11_mic_status_recorded_and_replayed (w : World) (c : Conn)
  (muted : bool) (m : gmap string bool) :
  micStates w !! connRoom c = Some m →
  let w1 := (micStatus w c muted).1 in
  mics w1 (connRoom c) = <[connName c := muted]> m
  ∧ (∀ x, received x (micStatus w c muted).2
          = if bool_decide (x ∈ members w (connRoom c) ∧ x ≠ connSocket c)
            then [MicStatus (connName c) muted] else [])
  ∧ (∀ sid name isHost,
       name ≠ connName c →
       MicStatus (connName c) muted
       ∈ received sid (join w1 sid (mkJoinData (connRoom c) name isHost)).2).
Proof.
  intros Hm. unfold micStatus. rewrite Hm. cbn zeta. cbn [fst snd].
  split; [|split].
  - unfold mics; simpl. by rewrite lookup_insert_eq.
  - intros x. rewrite received_emitToOthers. reflexivity.
  - intros sid name isHost Hne.
    rewrite join_out, !received_app. cbn [joinRoomId joinName].
    apply elem_of_app; right. apply elem_of_app; left.
    rewrite received_micReplay, String.eqb_refl.
    apply list_elem_of_fmap. exists (connName c, muted). split; [done|].
    apply list_elem_of_In, List.filter_In. split.
    + apply list_elem_of_In, elem_of_map_to_list.
      rewrite lookup_insert_ne by done.
      unfold mics; simpl. rewrite lookup_insert_eq. simpl.
      by rewrite lookup_insert_eq.
    + simpl. by destruct (String.eqb_spec (connName c) name).
Qed.

Lemma X11_witness :
  mics (micStatus w_two bob true).1 "r"
  = <["bob" := true]> (<["bob" := false]> (<["alice" := false]> ∅))
  ∧ (∀ x, received x (micStatus w_two bob true).2
          = if bool_decide (x ∈ members w_two "r" ∧ x ≠ "s2")
            then [MicStatus "bob" true] else [])
  ∧ (∀ sid name isHost,
       name ≠ "bob" →
       MicStatus "bob" true
       ∈ received sid (join (micStatus w_two bob true).1 sid
                         (mkJoinData "r" name isHost)).2).
Proof.
  apply (X11_mic_status_recorded_and_replayed w_two bob true
           (<["bob" := false]> (<["alice" := false]> ∅))).
  vm_compute. reflexivity.
Defined.

Lemma connections_insert (m : gmap string (list Client)) (r : string)
  (l' : list Client) :
  (map_fold (λ _ (l : list Client) total, (total + length l)%nat) 0%nat
     (<[r := l']> m)
   + length (default [] (m !! r)))%nat
  = (map_fold (λ _ (l : list Client) total, (total + length l)%nat) 0%nat m
     + length l')%nat.
Proof.
  assert (Hcomm : ∀ (m' : gmap string (list Client)) (j1 j2 : string)
            (z1 z2 : list Client) (y : nat),
            j1 ≠ j2 → m' !! j1 = Some z1 → m' !! j2 = Some z2 →
            (y + length z2 + length z1)%nat = (y + length z1 + length z2)%nat)
    by (intros; lia).
  destruct (m !! r) as [l|] eqn:E; simpl.
  - rewrite <- (insert_delete_eq m).
    rewrite (map_fold_delete_L _ _ r l m (Hcomm m) E).
    rewrite map_fold_insert_L; [lia | apply Hcomm | apply lookup_delete_eq].
  - rewrite map_fold_insert_L; [lia | apply Hcomm | exact E].
Qed.

(** X12. A join puts the session at the end of its room's list, creating
    the room when it is not known, and touches no other room and nothing
    of the playback states, the streams or the files; the status page
    counts one connection more, and one room more exactly when the room is
    new. *)
Theorem X12_join_registers_session (w : World) (sid : string)
  (data : JoinData) :
  let w' := (join w sid data).1.1 in
  sessions w' (joinRoomId data)
  = sessions w (joinRoomId data)
    ++ [mkClient sid (joinName data) (joinIsHost data)]
  ∧ (∀ r, r ≠ joinRoomId data →
          rooms w' !! r = rooms w !! r ∧ micStates w' !! r = micStates w !! r)
  ∧ videoStates w' = videoStates w
  ∧ activeStreams w' = activeStreams w
  ∧ fs w' = fs w
  ∧ activeConnections w' = S (activeConnections w)
  ∧ activeRooms w'
    = match rooms w !! joinRoomId data with
      | Some _ => activeRooms w
      | None => S (activeRooms w)
      end.
Proof.
  destruct (join_world w sid data) as (Hr & Hm & _ & Hv & Ha & Hf & _).
  cbn zeta. split; [|split; [|split; [|split; [|split; [|split]]]]];
    try assumption.
  - unfold sessions at 1. by rewrite Hr, lookup_insert_eq.
  - intros r Hne. by rewrite Hr, Hm, !lookup_insert_ne.
  - unfold activeConnections. rewrite Hr.
    pose proof (connections_insert (rooms w) (joinRoomId data)
                  (sessions w (joinRoomId data)
                   ++ [mkClient sid (joinName data) (joinIsHost data)])) as H.
    rewrite length_app in H. unfold sessions in *. simpl in H. lia.
  - unfold activeRooms. rewrite Hr.
    destruct (rooms w !! joinRoomId data) eqn:E.
    + by rewrite map_size_insert_Some.
    + by rewrite map_size_insert_None.
Qed.

Lemma X12_witness :
  activeConnections
    (join (connect w_film "s2") "s2" (mkJoinData "r" "bob" false)).1.1
  = S (activeConnections (connect w_film "s2"))
  ∧ activeRooms
      (join (connect w_film "s2") "s2" (mkJoinData "r" "bob" false)).1.1
    = activeRooms (connect w_film "s2").
Proof.
  destruct (X12_join_registers_session (connect w_film "s2") "s2"
              (mkJoinData "r" "bob" false)) as (_ & _ & _ & _ & _ & H1 & H2).
  split; [exact H1 | exact H2].
Defined.

(* ===================================================================== *)
(** ** A targeted signal that finds its target                            *)
(* ===================================================================== *)

Lemma find_first {A : Type} (p : A → bool) (l1 l2 : list A) (a : A) :
  (∀ x, x ∈ l1 → p x = false) → p a = true →
  List.find p (l1 ++ a :: l2) = Some a.
Proof.
  induction l1 as [|b l1 IH]; intros H Ha; simpl.
  - by rewrite Ha.
  - rewrite (H b) by (left; reflexivity). apply IH; [|exact Ha].
    intros x Hx. apply H. by right.
Qed.

(** X13. A signal whose target names sessions of the sender's room goes to
    the one that joined first under that name, once, and to nobody else
    (the socket sitting alone in the Socket.IO room of its own id). *)
Theorem X13_targeted_signal_first_namesake (w : World) (c : Conn)
  (t sig : string) (l1 l2 : list Client) (target : Client) :
  t ≠ EmptyString →
  rooms w !! connRoom c = Some (l1 ++ target :: l2) →
  (∀ client, client ∈ l1 → userName client ≠ t) →
  userName target = t →
  members w (socketId target) = {[socketId target]} →
  onSignal w c (mkSignalData (Some t) sig)
  = [(socketId target, Signal (connName c) sig)].
Proof.
  intros Ht Hl Hl1 Hname Hown. unfold onSignal.
  rewrite (target_named t sig Ht), Hl.
  rewrite (find_first _ l1 l2 target).
  - unfold emitTo. rewrite Hown, elements_singleton. reflexivity.
  - intros x Hx. apply String.eqb_neq. by apply Hl1.
  - by apply String.eqb_eq.
Qed.

Lemma X13_witness :
  onSignal w_two alice (mkSignalData (Some "bob") "offer")
  = [("s2", Signal "alice" "offer")].
Proof.
  apply (X13_targeted_signal_first_namesake w_two alice "bob" "offer"
           [mkClient "s1" "alice" true] [] (mkClient "s2" "bob" false)).
  - discriminate.
  - reflexivity.
  - intros client Hin. apply list_elem_of_singleton in Hin. subst client.
    discriminate.
  - reflexivity.
  - vm_compute. reflexivity.
Defined.

(* ===================================================================== *)
(** ** The playback clock under the host's controls                       *)
(* ===================================================================== *)

Lemma requestVideoState_room (w : World) (q : Conn) (vs : VideoState)
  (now : Z) :
  videoStates w !! connRoom q = Some vs →
  requestVideoState w q None now
  = [videoSync (connSocket q) vs (adjustedCurrentTime vs now)].
Proof. intros H. unfold requestVideoState. simpl. by rewrite H. Qed.



(** X15. A [movie-pause] or a [movie-seek] of a session that is not the
    host of its room's state, or whose room has no state, changes nothing
    and emits nothing; so does a [movie-play] in a room without state. *)
Theorem X15_controls_ignored (w : World) (c : Conn) (t : option Q)
  (now stamp : Z) :
  (∀ vs, videoStates w !! connRoom c = Some vs → host vs ≠ connName c) →
  moviePause w c t now stamp = (w, [])
  ∧ movieSeek w c t now stamp = (w, [])
  ∧ (videoStates w !! connRoom c = None →
     moviePlay w c t now stamp = (w, [])).
Proof.
  intros H. unfold moviePause, movieSeek, moviePlay.
  destruct (videoStates w !! connRoom c) as [vs|]; [|done].
  specialize (H vs eq_refl).
  destruct (String.eqb_spec (host vs) (connName c)); [contradiction|].
  by repeat split.
Qed.

Lemma X15_witness :
  moviePause w_playing bob (Some 3%Q) 7000 7000 = (w_playing, [])
  ∧ movieSeek w_playing bob (Some 3%Q) 7000 7000 = (w_playing, [])
  ∧ (videoStates w_playing !! "r" = None →
     moviePlay w_playing bob (Some 3%Q) 7000 7000 = (w_playing, [])).
Proof.
  apply (X15_controls_ignored w_playing bob (Some 3%Q) 7000 7000).
  intros vs Hvs. vm_compute in Hvs. injection Hvs as <-. discriminate.
Defined.

(** X16. A [movie-pause] of the host stops the clock: the state is not
    playing, at the position sent, and every later query is answered with
    that very position, whatever the time. *)
Theorem X16_host_pause_stops_clock (w : World) (c : Conn) (vs : VideoState)
  (t : option Q) (now stamp : Z) :
  videoStates w !! connRoom c = Some vs →
  host vs = connName c →
  let w1 := (moviePause w c t now stamp).1 in
  videoStates w1 !! connRoom c
  = Some (mkVideoState (filePath vs) (fileName vs) false (orZero t) (host vs)
            (uploadTime vs) now)
  ∧ (moviePause w c t now stamp).2
    = (λ s, (s, MoviePause t stamp)) <$> others w (connSocket c) (connRoom c)
  ∧ (∀ (q : Conn) (later : Z),
       connRoom q = connRoom c →
       requestVideoState w1 q None later
       = [(connSocket q,
           VideoStateSync true (Some (fileName vs)) false (orZero t)
             (Some (host vs)))]).
Proof.
  intros Hvs Hh. unfold moviePause. rewrite Hvs, Hh, String.eqb_refl.
  cbn zeta. cbn [fst snd].
  assert (Hst : videoStates
            (set_videoStates w
               (<[connRoom c := mkVideoState (filePath vs) (fileName vs) false
                                  (orZero t) (connName c) (uploadTime vs) now]>
                  (videoStates w))) !! connRoom c
          = Some (mkVideoState (filePath vs) (fileName vs) false (orZero t)
                    (connName c) (uploadTime vs) now)).
  { simpl. apply lookup_insert_eq. }
  split; [exact Hst|]. split; [reflexivity|].
  intros q later Hq.
  erewrite requestVideoState_room by (rewrite Hq; exact Hst). reflexivity.
Qed.

Lemma X16_witness :
  videoStates (moviePause w_playing alice (Some 42%Q) 9000 9000).1 !! "r"
  = Some (mkVideoState "uploads/movie-r-1.mp4" "film.mp4" false 42%Q "alice"
            1000 9000)
  ∧ (moviePause w_playing alice (Some 42%Q) 9000 9000).2
    = (λ s, (s, MoviePause (Some 42%Q) 9000)) <$> others w_playing "s1" "r"
  ∧ (∀ (q : Conn) (later : Z),
       connRoom q = "r" →
       requestVideoState (moviePause w_playing alice (Some 42%Q) 9000 9000).1
         q None later
       = [(connSocket q,
           VideoStateSync true (Some "film.mp4") false 42%Q (Some "alice"))]).
Proof.
  apply (X16_host_pause_stops_clock w_playing alice vs_playing (Some 42%Q)
           9000 9000); reflexivity.
Defined.



(* ===================================================================== *)
(** ** Stopping the movie party                                           *)
(* ===================================================================== *)

Lemma received_emitTo (w : World) (room x : string) (ev : Event) :
  received x (emitTo w room ev)
  = if bool_decide (x ∈ members w room) then [ev] else [].
Proof.
  unfold emitTo. rewrite received_fanout by apply NoDup_elements.
  apply (f_equal (λ b : bool, if b then [ev] else [])).
  apply bool_decide_ext, elem_of_elements.
Qed.




(** X19. After the host stopped the party with the file on disk, the
    timer the handler armed unlinks the file when it can, and nothing
    refers to the file any more; on a locked file it leaves the file and
    arms one retry, five seconds later, which gives up if the file is
    still locked. *)
Theorem X19_stop_then_deferred_unlink (w : World) (c : Conn)
  (data : StopData) (vs : VideoState) (f : File) :
  videoStates w !! stopRoomId data = Some vs →
  host vs = stopHost data →
  connName c = stopHost data →
  fs w !! filePath vs = Some f →
  let w' := (stopMovieParty w c data).1.1 in
  (stopMovieParty w c data).2 = [UnlinkAfter 1000 (filePath vs)]
  ∧ (locked f = false →
     (runUnlink w' (filePath vs)).2 = []
     ∧ fs (runUnlink w' (filePath vs)).1 !! filePath vs = None)
  ∧ (locked f = true →
     runUnlink w' (filePath vs) = (w', [RetryAfter 5000 (filePath vs)])
     ∧ runRetry w' (filePath vs) = w')
  ∧ (∀ p, p ≠ filePath vs →
          fs (runUnlink w' (filePath vs)).1 !! p = fs w !! p).
Proof.
  intros Hvs Hh Hn Hf. unfold stopMovieParty.
  rewrite Hvs, Hh, Hn, !String.eqb_refl, Hf. cbn zeta. cbn [andb fst snd].
  set (w1 := set_videoStates w (delete (stopRoomId data) (videoStates w))).
  destruct (closeActiveStreams_frame w1 (stopRoomId data))
    as (_ & _ & _ & Cf & _).
  change (fs w1) with (fs w) in Cf.
  unfold runUnlink, runRetry, unlinkSync. rewrite Cf, Hf.
  split; [reflexivity|]. split; [|split].
  - intros ->. simpl. split; [reflexivity | apply lookup_delete_eq].
  - by intros ->.
  - intros p Hp. destruct (locked f); simpl.
    + by rewrite Cf.
    + by rewrite lookup_delete_ne.
Qed.

Lemma X19_witness :
  (stopMovieParty w_streaming alice (mkStopData "r" "alice")).2
  = [UnlinkAfter 1000 "uploads/movie-r-1.mp4"]
  ∧ (runUnlink (stopMovieParty w_streaming alice (mkStopData "r" "alice")).1.1
       "uploads/movie-r-1.mp4").2 = []
  ∧ fs (runUnlink (stopMovieParty w_streaming alice
                     (mkStopData "r" "alice")).1.1
          "uploads/movie-r-1.mp4").1 !! "uploads/movie-r-1.mp4" = None.
Proof.
  destruct (X19_stop_then_deferred_unlink w_streaming alice
              (mkStopData "r" "alice") vs_paused (mkFile 1000 1000 false)
              eq_refl eq_refl eq_refl eq_refl) as (H1 & H2 & _).
  split; [exact H1 | exact (H2 eq_refl)].
Defined.

(* ===================================================================== *)
(** ** What the two cleanups delete, and what they never delete           *)
(* ===================================================================== *)

Lemma janitorFile_other_fields (w : World) (dir file : string) (now : Z) :
  let w' := (janitorFile w dir file now).1 in
  rooms w' = rooms w ∧ videoStates w' = videoStates w
  ∧ micStates w' = micStates w ∧ activeStreams w' = activeStreams w
  ∧ ioRooms w' = ioRooms w ∧ destroyed w' = destroyed w.
Proof.
  unfold janitorFile.
  destruct (fs w !! pathJoin dir file) as [f|]; [|done].
  destruct (shouldDelete w _ _); [|done]. by destruct (locked f).
Qed.

(** A pass leaves a path as it was, or deletes a listed file that nothing
    refers to, that is old enough and not locked. *)
Lemma janitorPass_fs (w : World) (dir : string) (files : list string)
  (now : Z) (p : string) :
  videoStates (janitorPass w dir files now).1 = videoStates w
  ∧ (fs (janitorPass w dir files now).1 !! p = fs w !! p
     ∨ (fs (janitorPass w dir files now).1 !! p = None
        ∧ ∃ file f, file ∈ files ∧ p = pathJoin dir file
                    ∧ fs w !! p = Some f ∧ locked f = false
                    ∧ isInUse w p = false
                    ∧ threshold w < now - mtime f)).
Proof.
  revert w. induction files as [|x rest IH]; intros w; simpl; [split; [done | by left]|].
  destruct (janitorFile_frame w dir x now) as (Fv & _ & Ffs).
  specialize (IH (janitorFile w dir x now).1) as [IHv IHfs].
  assert (Hstep : fs (janitorFile w dir x now).1 !! p = fs w !! p
                  ∨ (fs (janitorFile w dir x now).1 !! p = None
                     ∧ p = pathJoin dir x
                     ∧ ∃ f, fs w !! p = Some f ∧ locked f = false
                            ∧ isInUse w p = false
                            ∧ threshold w < now - mtime f)).
  { destruct (decide (p = pathJoin dir x)) as [->|Hne]; [|left; by apply Ffs].
    unfold janitorFile.
    destruct (fs w !! pathJoin dir x) as [f|] eqn:Ef; [|by left].
    destruct (shouldDelete w _ _) eqn:Hsd; [|by left].
    destruct (locked f) eqn:Hl; [by left|]. right. simpl.
    split; [apply lookup_delete_eq|]. split; [reflexivity|].
    exists f. rewrite shouldDelete_threshold in Hsd.
    apply andb_true_iff in Hsd as [Hu Hage].
    apply negb_true_iff in Hu. apply Z.ltb_lt in Hage. auto. }
  destruct (janitorFile w dir x now) as [w1 att]. cbn [fst snd] in *.
  destruct (janitorPass w1 dir rest now) as [w2 others]. cbn [fst snd] in *.
  split; [by rewrite IHv|].
  destruct IHfs as [Heq|(Hnone & file & f & Hin & -> & Hf & Hl & Hu & Hage)].
  - rewrite Heq. destruct Hstep as [?|(Hnone & -> & f & Hf & Hl & Hu & Hage)];
      [by left|].
    right. split; [exact Hnone|]. exists x, f. repeat split; try done. by left.
  - right. split; [exact Hnone|].
    destruct Hstep as [Hsame|(Hnone1 & _)]; [|congruence].
    exists file, f. rewrite <- Hsame.
    unfold isInUse, threshold in *. rewrite Fv in *.
    repeat split; try done. by right.
Qed.

(** X20. The periodic pass only deletes: whatever the listing, it never
    deletes a file that a playback state refers to, nor a locked file, nor
    a file that is not older than ten minutes, nor a file outside the
    listing, and it leaves the playback states alone. *)
Theorem X20_periodic_pass_never_deletes (w : World) (dir : string)
  (files : list string) (now : Z) (p : string) (f : File) :
  fs w !! p = Some f →
  let w' := (janitorPass w dir files now).1 in
  (fs w' !! p = Some f ∨ fs w' !! p = None)
  ∧ (isInUse w p = true
     ∨ locked f = true
     ∨ now - mtime f ≤ TEN_MINUTES
     ∨ (∀ file, file ∈ files → p ≠ pathJoin dir file) →
     fs w' !! p = Some f)
  ∧ videoStates w' = videoStates w.
Proof.
  intros Hf. cbn zeta.
  destruct (janitorPass_fs w dir files now p) as [Hv Hfs].
  split; [|split; [|exact Hv]].
  - destruct Hfs as [->|[-> _]]; auto.
  - intros Hkeep.
    destruct Hfs as [->|(_ & file & f' & Hin & -> & Hf' & Hl & Hu & Hage)];
      [exact Hf|].
    rewrite Hf in Hf'. injection Hf' as <-.
    destruct Hkeep as [H|[H|[H|H]]].
    + congruence.
    + congruence.
    + unfold threshold, TEN_MINUTES, ONE_HOUR in *.
      destruct (size (videoStates w) =? 0)%nat; lia.
    + by destruct (H file Hin).
Qed.

Lemma X20_witness :
  (fs (janitorPass w_film "uploads" ["movie-r-1.mp4"] 99999999).1
     !! "uploads/movie-r-1.mp4" = Some (mkFile 1000 1000 false)
   ∨ fs (janitorPass w_film "uploads" ["movie-r-1.mp4"] 99999999).1
       !! "uploads/movie-r-1.mp4" = None)
  ∧ fs (janitorPass w_film "uploads" ["movie-r-1.mp4"] 99999999).1
      !! "uploads/movie-r-1.mp4" = Some (mkFile 1000 1000 false)
  ∧ videoStates (janitorPass w_film "uploads" ["movie-r-1.mp4"] 99999999).1
    = videoStates w_film.
Proof.
  destruct (X20_periodic_pass_never_deletes w_film "uploads"
              ["movie-r-1.mp4"] 99999999 "uploads/movie-r-1.mp4"
              (mkFile 1000 1000 false) eq_refl) as (H1 & H2 & H3).
  split; [exact H1|]. split; [|exact H3].
  apply H2. left. reflexivity.
Defined.

Lemma activeFilePaths_isInUse (w : World) (path : string) :
  existsb (String.eqb path) (activeFilePaths w) = isInUse w path.
Proof.
  unfold activeFilePaths, isInUse.
  induction (map_to_list (videoStates w)) as [|[k vs] l IH]; [reflexivity|].
  rewrite !fmap_cons. cbn [existsb snd compose]. simpl.
  rewrite IH. f_equal. apply String.eqb_sym.
Qed.

Lemma isInUse_ext (w w' : World) (path : string) :
  videoStates w' = videoStates w → isInUse w' path = isInUse w path.
Proof. intros H. unfold isInUse. by rewrite H. Qed.

Lemma sweepFile_cases (w : World) (dir file : string) :
  let path := pathJoin dir file in
  match fs w !! path with
  | Some f =>
      if isInUse w path then sweepFile w dir file = (w, [])
      else if locked f
           then sweepFile w dir file = (w, [RetryAfter 5000 path])
           else sweepFile w dir file = (set_fs w (delete path (fs w)), [])
  | None => sweepFile w dir file = (w, [])
  end.
Proof.
  cbn zeta. unfold sweepFile. rewrite activeFilePaths_isInUse.
  destruct (fs w !! pathJoin dir file) as [f|];
    destruct (isInUse w (pathJoin dir file)); simpl; try reflexivity.
  by destruct (locked f).
Qed.

Lemma sweepFile_frame (w : World) (dir file : string) :
  videoStates (sweepFile w dir file).1 = videoStates w
  ∧ ∀ p, p ≠ pathJoin dir file →
         fs (sweepFile w dir file).1 !! p = fs w !! p.
Proof.
  pose proof (sweepFile_cases w dir file) as H. cbn zeta in H.
  destruct (fs w !! pathJoin dir file) as [f|].
  - destruct (isInUse w _); [by rewrite H|].
    destruct (locked f); rewrite H; [done|]. simpl. split; [done|].
    intros p Hp. by rewrite lookup_delete_ne.
  - by rewrite H.
Qed.

Lemma orphanSweep_frame (w : World) (dir : string) (files : list string) :
  videoStates (orphanSweep w dir files).1 = videoStates w
  ∧ ∀ p, (∀ file, file ∈ files → p ≠ pathJoin dir file) →
         fs (orphanSweep w dir files).1 !! p = fs w !! p.
Proof.
  revert w. induction files as [|x rest IH]; intros w; simpl; [done|].
  destruct (sweepFile_frame w dir x) as [Sv Sfs].
  specialize (IH (sweepFile w dir x).1) as [IHv IHfs].
  destruct (sweepFile w dir x) as [w1 armed]. cbn [fst snd] in *.
  destruct (orphanSweep w1 dir rest) as [w2 more]. cbn [fst snd] in *.
  split; [by rewrite IHv|].
  intros p Hp. rewrite IHfs, Sfs; [done| |].
  - apply Hp. by left.
  - intros file Hin. apply Hp. by right.
Qed.

(** X21. The sweep armed by [cleanupOrphanedVideos] has no age threshold:
    over a listing without repetition, a listed file that no playback
    state refers to is unlinked at once when it is not locked, and is kept
    with one retry armed for it when it is locked; a file that a state
    refers to is kept and nothing is armed for it. *)
Theorem X21_orphan_sweep (w : World) (dir : string) (files : list string)
  (file : string) (f : File) :
  NoDup files →
  file ∈ files →
  fs w !! pathJoin dir file = Some f →
  let w' := (orphanSweep w dir files).1 in
  let armed := (orphanSweep w dir files).2 in
  (isInUse w (pathJoin dir file) = true →
   fs w' !! pathJoin dir file = Some f
   ∧ RetryAfter 5000 (pathJoin dir file) ∉ armed)
  ∧ (isInUse w (pathJoin dir file) = false → locked f = false →
     fs w' !! pathJoin dir file = None
     ∧ RetryAfter 5000 (pathJoin dir file) ∉ armed)
  ∧ (isInUse w (pathJoin dir file) = false → locked f = true →
     fs w' !! pathJoin dir file = Some f
     ∧ RetryAfter 5000 (pathJoin dir file) ∈ armed).
Proof.
  intros Hnd. revert w. cbn zeta.
  assert (Hnot : ∀ (rest : list string) (w : World),
            file ∉ rest →
            RetryAfter 5000 (pathJoin dir file) ∉ (orphanSweep w dir rest).2).
  { induction rest as [|y rest IH]; intros w Hy; simpl; [apply not_elem_of_nil|].
    pose proof (sweepFile_cases w dir y) as Hc. cbn zeta in Hc.
    specialize (IH (sweepFile w dir y).1).
    destruct (sweepFile w dir y) as [w1 a1]. cbn [fst snd] in *.
    destruct (orphanSweep w1 dir rest) as [w2 more]. cbn [fst snd] in *.
    rewrite elem_of_app. intros [Hin|Hin].
    - assert (Hne : pathJoin dir file ≠ pathJoin dir y).
      { intros E. apply pathJoin_inj in E. subst y. apply Hy. by left. }
      destruct (fs w !! pathJoin dir y) as [fy|].
      + destruct (isInUse w (pathJoin dir y)).
        * injection Hc as -> ->. by apply elem_of_nil in Hin.
        * destruct (locked fy); injection Hc as -> ->.
          -- apply list_elem_of_singleton in Hin. by injection Hin.
          -- by apply elem_of_nil in Hin.
      + injection Hc as -> ->. by apply elem_of_nil in Hin.
    - revert Hin. apply IH. intros H. apply Hy. by right. }
  induction Hnd as [|x rest Hx Hnd IH]; intros w Hin Hf.
  - by apply elem_of_nil in Hin.
  - simpl. pose proof (sweepFile_cases w dir x) as Hc. cbn zeta in Hc.
    destruct (sweepFile_frame w dir x) as [Sv Sfs].
    destruct (decide (file = x)) as [->|Hne].
    + rewrite Hf in Hc.
      destruct (orphanSweep_frame (sweepFile w dir x).1 dir rest) as [_ Ofs].
      specialize (Ofs (pathJoin dir x)).
      specialize (Hnot rest (sweepFile w dir x).1 Hx).
      destruct (sweepFile w dir x) as [w1 a1]. cbn [fst snd] in *.
      destruct (orphanSweep w1 dir rest) as [w2 more]. cbn [fst snd] in *.
      rewrite Ofs by (intros y Hy E; apply pathJoin_inj in E; by subst y).
      destruct (isInUse w (pathJoin dir x)).
      * injection Hc as -> ->. split; [|split]; [|discriminate..].
        intros _. split; [exact Hf | exact Hnot].
      * destruct (locked f); injection Hc as -> ->.
        -- split; [|split]; [discriminate | intros _; discriminate |].
           intros _ _. split; [exact Hf | by left].
        -- split; [|split]; [discriminate | | intros _; discriminate].
           intros _ _. split; [apply lookup_delete_eq | exact Hnot].
    + apply elem_of_cons in Hin as [?|Hin]; [contradiction|].
      assert (Hp : pathJoin dir file ≠ pathJoin dir x).
      { intros E. by apply pathJoin_inj in E. }
      specialize (IH (sweepFile w dir x).1 Hin).
      rewrite (Sfs _ Hp) in IH. specialize (IH Hf).
      rewrite (isInUse_ext _ _ _ Sv) in IH.
      assert (Ha1 : RetryAfter 5000 (pathJoin dir file) ∉ (sweepFile w dir x).2).
      { destruct (fs w !! pathJoin dir x) as [fx|].
        - destruct (isInUse w (pathJoin dir x));
            [rewrite Hc; apply not_elem_of_nil|].
          destruct (locked fx); rewrite Hc; simpl.
          + intros H%list_elem_of_singleton. by injection H.
          + apply not_elem_of_nil.
        - rewrite Hc. apply not_elem_of_nil. }
      destruct (sweepFile w dir x) as [w1 a1]. cbn [fst snd] in *.
      destruct (orphanSweep w1 dir rest) as [w2 more]. cbn [fst snd] in *.
      destruct IH as (I1 & I2 & I3). split; [|split].
      * intros Hu. destruct (I1 Hu) as [A B]. split; [exact A|].
        rewrite elem_of_app. by intros [?|?].
      * intros Hu Hl. destruct (I2 Hu Hl) as [A B]. split; [exact A|].
        rewrite elem_of_app. by intros [?|?].
      * intros Hu Hl. destruct (I3 Hu Hl) as [A B]. split; [exact A|].
        apply elem_of_app. by right.
Qed.

Lemma X21_witness :
  fs (orphanSweep w_stale "uploads" ["old.mp4"]).1 !! "uploads/old.mp4" = None
  ∧ RetryAfter 5000 "uploads/old.mp4" ∉ (orphanSweep w_stale "uploads" ["old.mp4"]).2.
Proof.
  destruct (X21_orphan_sweep w_stale "uploads" ["old.mp4"] "old.mp4"
              (mkFile 500 0 false) (NoDup_singleton "old.mp4")
              ltac:(left) eq_refl) as (_ & H & _).
  apply H; reflexivity.
Defined.

(* ===================================================================== *)
(** ** Uploading an asset                                                 *)
(* ===================================================================== *)

(** X22. An upload without file is refused with status 400 and changes
    nothing.  An upload with a file makes the named uploader, whoever it
    is, the host of a fresh state for the room, not playing, at position 0,
    in place of any state the room had; every socket of the room is told
    once; the registry and the registered streams are left as they are;
    and a query of a session of the room is answered with position 0, not
    playing, at any time. *)
Theorem X22_upload_loads_asset (w : World) (roomId hostName : string)
  (now : Z) :
  postUploadVideo w roomId hostName None now
  = (w, [], UploadError 400 "No video file uploaded")
  ∧ ∀ f : Upload,
      ∃ w', postUploadVideo w roomId hostName (Some f) now
            = (w',
               emitTo w roomId (VideoUploaded (upOriginalName f) hostName),
               UploadOk (upOriginalName f) "Video uploaded successfully")
        ∧ videoStates w'
          = <[roomId := mkVideoState (upPath f) (upOriginalName f) false 0%Q
                          hostName now now]> (videoStates w)
        ∧ rooms w' = rooms w
        ∧ activeStreams w' = activeStreams w
        ∧ (∀ x, received x (emitTo w roomId
                              (VideoUploaded (upOriginalName f) hostName))
                = if bool_decide (x ∈ members w roomId)
                  then [VideoUploaded (upOriginalName f) hostName] else [])
        ∧ (∀ (q : Conn) (later : Z),
             connRoom q = roomId →
             requestVideoState w' q None later
             = [(connSocket q,
                 VideoStateSync true (Some (upOriginalName f)) false 0%Q
                   (Some hostName))]).
Proof.
  split; [reflexivity|]. intros f. eexists. split; [reflexivity|].
  split; [reflexivity|]. split; [reflexivity|]. split; [reflexivity|].
  split; [intros x; apply received_emitTo|].
  intros q later <-.
  erewrite requestVideoState_room by (simpl; apply lookup_insert_eq).
  reflexivity.
Qed.



Lemma X22_witness :
  requestVideoState (postUploadVideo w_alice "r" "alice" (Some film) 1000).1.1
    alice None 99000
  = [("s1", VideoStateSync true (Some "film.mp4") false 0%Q (Some "alice"))].
Proof.
  destruct (X22_upload_loads_asset w_alice "r" "alice" 1000) as [_ H].
  destruct (H film) as (w' & E & _ & _ & _ & _ & Hq).
  rewrite E. apply (Hq alice 99000). reflexivity.
Defined.

(* ===================================================================== *)
(** ** Leaving a room that stays                                          *)
(* ===================================================================== *)

Lemma hostBranch_out_mics (w : World) (c : Conn) (b : bool) :
  micStates (hostBranch w c b).1 = micStates w
  ∧ ((hostBranch w c b).2 = []
     ∨ (hostBranch w c b).2
       = emitToOthers w (connSocket c) (connRoom c)
           (MoviePartyEnded (connName c)
              "Movie party ended - host disconnected")).
Proof.
  unfold hostBranch.
  destruct (if b then videoStates w !! connRoom c else None) as [vs|];
    [|by split; [|left]].
  destruct (hostCleanup_spec w c vs) as (Ho & _ & Hm & _).
  split; [exact Hm | by right].
Qed.

Lemma leaveRoom_mics (w : World) (c : Conn) (l' : list Client) (r : string) :
  micStates (leaveRoom w c l').1 !! r
  = if decide (r = connRoom c)
    then delete (connName c) <$> micStates w !! connRoom c
    else micStates w !! r.
Proof.
  unfold leaveRoom; simpl.
  destruct (micStates w !! connRoom c) as [m|] eqn:E; simpl.
  - destruct (decide (r = connRoom c)) as [->|Hne].
    + by rewrite lookup_insert_eq.
    + by rewrite lookup_insert_ne.
  - destruct (decide (r = connRoom c)) as [->|Hne]; [by rewrite E | done].
Qed.

(** The handler when the room keeps a member. *)
Lemma disconnect_stays (w : World) (c : Conn) (l : list Client) :
  rooms w !! connRoom c = Some l →
  remaining (connSocket c) l ≠ [] →
  let w0 := ioLeaveAll w (connSocket c) in
  let l' := remaining (connSocket c) l in
  let w2 := (leaveRoom w0 c l').1 in
  disconnect w c
  = Done (hostBranch w2 c (wasHost w c)).1
      (emitToOthers w0 (connSocket c) (connRoom c) (PeerLeft (connName c))
       ++ (hostBranch w2 c (wasHost w c)).2).
Proof.
  intros Hl Hrem. rewrite (disconnect_stages w c l Hl). cbn zeta.
  rewrite leaveRoom_out.
  destruct (remaining (connSocket c) l); [done | reflexivity].
Qed.

(** X24. When a session disconnects from a room that keeps a member, the
    handler completes, the room's list is the list without the entries of
    the leaving socket, every remaining session gets exactly one
    [peer-left] naming the leaver and the leaver none, the microphone
    entry under the leaver's name is removed (whoever else bears the name)
    and the other entries stay, and no other room is touched. *)
Theorem X24_disconnect_peer_left (w : World) (c : Conn) (l : list Client) :
  rooms w !! connRoom c = Some l →
  remaining (connSocket c) l ≠ [] →
  coherent w (connRoom c) →
  ∃ w' out, disconnect w c = Done w' out
    ∧ sessions w' (connRoom c) = remaining (connSocket c) l
    ∧ (∀ client, client ∈ remaining (connSocket c) l →
         List.filter isPeerLeft (received (socketId client) out)
         = [PeerLeft (connName c)])
    ∧ List.filter isPeerLeft (received (connSocket c) out) = []
    ∧ mics w' (connRoom c) = delete (connName c) (mics w (connRoom c))
    ∧ (∀ r, r ≠ connRoom c →
            rooms w' !! r = rooms w !! r
            ∧ micStates w' !! r = micStates w !! r).
Proof.
  intros Hl Hrem Hco. rewrite (disconnect_stays w c l Hl Hrem). cbn zeta.
  set (w0 := ioLeaveAll w (connSocket c)).
  set (l' := remaining (connSocket c) l) in *.
  destruct (leaveRoom_frame w0 c l') as (Lr & _ & _ & _ & Lio & _).
  pose proof (leaveRoom_mics w0 c l') as Lm.
  destruct (hostBranch_registry (leaveRoom w0 c l').1 c (wasHost w c))
    as [Hr _].
  destruct (hostBranch_out_mics (leaveRoom w0 c l').1 c (wasHost w c))
    as [Hm Hout].
  set (w2 := (leaveRoom w0 c l').1) in *.
  set (w3 := (hostBranch w2 c (wasHost w c)).1) in *.
  set (out2 := (hostBranch w2 c (wasHost w c)).2) in *.
  assert (Hpl : ∀ x, List.filter isPeerLeft (received x out2) = []).
  { intros x. destruct Hout as [-> | ->]; [reflexivity|].
    rewrite filter_emitToOthers. by rewrite andb_false_r. }
  exists w3. eexists. split; [reflexivity|].
  split; [|split; [|split; [|split]]].
  - unfold sessions. rewrite Hr, Lr. by rewrite lookup_insert_eq.
  - intros client [Hin Hne]%remaining_elem.
    rewrite received_app, List.filter_app, Hpl, app_nil_r.
    rewrite filter_emitToOthers. unfold w0. rewrite members_ioLeaveAll.
    rewrite andb_true_r, bool_decide_eq_true_2; [reflexivity|].
    split; [|exact Hne]. apply elem_of_difference. split; [|set_solver].
    apply Hco. exists client. by rewrite Hl.
  - rewrite received_app, List.filter_app, Hpl, app_nil_r.
    rewrite filter_emitToOthers, andb_true_r.
    rewrite bool_decide_eq_false_2; [reflexivity|]. by intros [_ H].
  - unfold mics. rewrite Hm, Lm, decide_True by done.
    change (micStates w0) with (micStates w).
    destruct (micStates w !! connRoom c); simpl; [done|].
    by rewrite delete_empty.
  - intros r Hne. rewrite Hr, Lr, Hm, Lm, decide_False by done.
    by rewrite lookup_insert_ne.
Qed.

Lemma X24_witness :
  ∃ w' out, disconnect w_two bob = Done w' out
    ∧ sessions w' "r" = remaining "s2" [mkClient "s1" "alice" true;
                                        mkClient "s2" "bob" false]
    ∧ (∀ client, client ∈ remaining "s2" [mkClient "s1" "alice" true;
                                          mkClient "s2" "bob" false] →
         List.filter isPeerLeft (received (socketId client) out)
         = [PeerLeft "bob"])
    ∧ List.filter isPeerLeft (received "s2" out) = []
    ∧ mics w' "r" = delete "bob" (mics w_two "r")
    ∧ (∀ r, r ≠ "r" →
            rooms w' !! r = rooms w_two !! r
            ∧ micStates w' !! r = micStates w_two !! r).
Proof.
  apply (X24_disconnect_peer_left w_two bob
           [mkClient "s1" "alice" true; mkClient "s2" "bob" false]).
  - reflexivity.
  - discriminate.
  - exact coherent_w_two.
Defined.

(** A session that is not the host leaves a room that keeps a member. *)
Lemma disconnect_guest (w : World) (c : Conn) (l : list Client) :
  rooms w !! connRoom c = Some l →
  remaining (connSocket c) l ≠ [] →
  (∀ vs, videoStates w !! connRoom c = Some vs → host vs ≠ connName c) →
  ∃ w', disconnect w c
        = Done w' (emitToOthers (ioLeaveAll w (connSocket c)) (connSocket c)
                     (connRoom c) (PeerLeft (connName c)))
    ∧ rooms w' = <[connRoom c := remaining (connSocket c) l]> (rooms w)
    ∧ videoStates w' = videoStates w
    ∧ activeStreams w' = activeStreams w
    ∧ destroyed w' = destroyed w
    ∧ fs w' = fs w
    ∧ timers w' = timers w.
Proof.
  intros Hl Hrem Hguest. rewrite (disconnect_stays w c l Hl Hrem). cbn zeta.
  assert (Hw : wasHost w c = false).
  { unfold wasHost. destruct (videoStates w !! connRoom c) as [vs|]; [|done].
    apply String.eqb_neq. by apply Hguest. }
  rewrite Hw. unfold hostBranch. cbn [fst snd]. rewrite app_nil_r.
  eexists. split; [reflexivity|].
  unfold leaveRoom; simpl.
  by destruct (micStates w !! connRoom c).
Qed.

(** X25. When a session that is not the host of its room's state leaves a
    room that keeps a member, the party goes on: the playback states, the
    registered streams, the destroyed streams and the files are as they
    were, no timer is armed, and all that is sent is the [peer-left]. *)
Theorem X25_guest_leaves_party_goes_on (w : World) (c : Conn)
  (l : list Client) :
  rooms w !! connRoom c = Some l →
  remaining (connSocket c) l ≠ [] →
  (∀ vs, videoStates w !! connRoom c = Some vs → host vs ≠ connName c) →
  ∃ w', disconnect w c
        = Done w' (emitToOthers (ioLeaveAll w (connSocket c)) (connSocket c)
                     (connRoom c) (PeerLeft (connName c)))
    ∧ videoStates w' = videoStates w
    ∧ activeStreams w' = activeStreams w
    ∧ destroyed w' = destroyed w
    ∧ fs w' = fs w
    ∧ timers w' = timers w.
Proof.
  intros Hl Hrem Hguest.
  destruct (disconnect_guest w c l Hl Hrem Hguest) as (w' & E & _ & H).
  by exists w'.
Qed.

Lemma X25_witness :
  ∃ w', disconnect w_streaming bob
        = Done w' (emitToOthers (ioLeaveAll w_streaming "s2") "s2" "r"
                     (PeerLeft "bob"))
    ∧ videoStates w' = videoStates w_streaming
    ∧ activeStreams w' = activeStreams w_streaming
    ∧ destroyed w' = destroyed w_streaming
    ∧ fs w' = fs w_streaming
    ∧ timers w' = timers w_streaming.
Proof.
  apply (X25_guest_leaves_party_goes_on w_streaming bob
           [mkClient "s1" "alice" true; mkClient "s2" "bob" false]).
  - reflexivity.
  - discriminate.
  - intros vs Hvs. vm_compute in Hvs. injection Hvs as <-. discriminate.
Defined.




(* ===================================================================== *)
(** ** The origin check                                                   *)
(* ===================================================================== *)

Lemma includes_app (a sub b : string) :
  Js.includes (a +:+ sub +:+ b) sub = true.
Proof.
  assert (E : ∀ s, Js.includes s sub
                   = if String.prefix sub s then true
                     else match s with
                          | EmptyString => false
                          | String _ s' => Js.includes s' sub
                          end) by (by intros []).
  induction a as [|c a IH].
  - rewrite app_nil, E. by rewrite prefix_app.
  - rewrite app_cons, E. rewrite IH. by destruct (String.prefix _ _).
Qed.

(** X27. The HTTP middleware sets [Access-Control-Allow-Origin] exactly
    for the origins the Socket.IO check admits, to the origin itself or to
    [*] when the request has none; both admit every origin that contains
    [vercel.app], wherever in it; and the middleware stops no request:
    unless the method is OPTIONS the request goes on, admitted or not. *)
Theorem X27_cors_origin (frontendUrl : option string)
  (origin : option string) (method : string) :
  (corsOrigin frontendUrl origin = true
   ↔ (corsMiddleware frontendUrl origin method).1 ≠ None)
  ∧ (∀ o, (corsMiddleware frontendUrl origin method).1 = Some o →
          origin = Some o ∨ (givenHeader origin = None ∧ o = "*"))
  ∧ (∀ a b, corsOrigin frontendUrl (Some (a +:+ "vercel.app" +:+ b)) = true)
  ∧ (method ≠ "OPTIONS" →
     (corsMiddleware frontendUrl origin method).2 = CallNext).
Proof.
  unfold corsOrigin, corsMiddleware. cbn [fst snd].
  split; [|split; [|split]].
  - destruct (givenHeader origin) as [o|]; [|done].
    destruct (listed frontendUrl o || Js.includes o "vercel.app"); done.
  - intros o. unfold givenHeader.
    destruct origin as [o'|]; [|intros [= <-]; by right].
    destruct (Js.truthy o'); [|intros [= <-]; by right].
    destruct (listed frontendUrl o' || Js.includes o' "vercel.app");
      [|discriminate]. intros [= <-]. by left.
  - intros a b. unfold givenHeader.
    destruct (Js.truthy (a +:+ "vercel.app" +:+ b)); [|reflexivity].
    by rewrite includes_app, orb_true_r.
  - intros Hm. by destruct (String.eqb_spec method "OPTIONS").
Qed.

Lemma X27_witness :
  corsOrigin None (Some "https://evil.example/?vercel.app") = true
  ∧ (corsMiddleware None (Some "https://evil.example/?vercel.app") "GET").1
    = Some "https://evil.example/?vercel.app"
  ∧ corsOrigin None (Some "https://other.example") = false
  ∧ (corsMiddleware None (Some "https://other.example") "POST").2 = CallNext.
Proof.
  destruct (X27_cors_origin None (Some "https://other.example") "POST")
    as (_ & _ & Hv & Hnext).
  split; [exact (Hv "https://evil.example/?" EmptyString)|].
  split; [reflexivity|]. split; [reflexivity|].
  apply Hnext. discriminate.
Defined.

(* ===================================================================== *)
(** ** The plain server: joining and closing                              *)
(* ===================================================================== *)

Lemma noticed_app (x : nat) (o1 o2 : list Legacy.WsNotice) :
  Legacy.noticed x (o1 ++ o2) = Legacy.noticed x o1 ++ Legacy.noticed x o2.
Proof. unfold Legacy.noticed. by rewrite List.filter_app, fmap_app. Qed.

Lemma noticed_to_one {A : Type} (x ws : nat) (f : A → Legacy.Notice)
  (l : list A) :
  Legacy.noticed x ((λ a, (ws, f a)) <$> l)
  = if (ws =? x)%nat then f <$> l else [].
Proof.
  unfold Legacy.noticed. induction l as [|a l IH].
  - by destruct (ws =? x)%nat.
  - rewrite fmap_cons. cbn [List.filter fst].
    destruct (ws =? x)%nat; [|exact IH].
    rewrite !fmap_cons, IH. reflexivity.
Qed.

Lemma noticed_fanout (x : nat) (n : Legacy.Notice) (l : list nat) :
  NoDup l →
  Legacy.noticed x ((λ client, (client, n)) <$> l)
  = if bool_decide (x ∈ l) then [n] else [].
Proof.
  unfold Legacy.noticed. induction 1 as [|y l Hy Hnd IH].
  - reflexivity.
  - rewrite fmap_cons. cbn [List.filter fst].
    destruct (Nat.eqb_spec y x) as [->|Hne].
    + rewrite fmap_cons, IH. cbn [snd].
      rewrite (bool_decide_eq_false_2 (x ∈ l)) by assumption.
      rewrite bool_decide_eq_true_2 by (left; reflexivity). reflexivity.
    + rewrite IH. apply (f_equal (λ b : bool, if b then [n] else [])).
      apply bool_decide_ext. rewrite elem_of_cons. naive_solver.
Qed.

Lemma noticed_not_in (x : nat) (n : Legacy.Notice) (l : list nat) :
  x ∉ l → Legacy.noticed x ((λ client, (client, n)) <$> l) = [].
Proof.
  unfold Legacy.noticed. induction l as [|y l IH]; intros Hx; [reflexivity|].
  rewrite fmap_cons. cbn [List.filter fst].
  destruct (Nat.eqb_spec y x) as [->|_].
  - destruct Hx. by left.
  - apply IH. intros H. apply Hx. by right.
Qed.

Lemma filter_notice_none {A : Type} (p : Legacy.Notice → bool)
  (f : A → Legacy.Notice) (l : list A) :
  (∀ a, p (f a) = false) → List.filter p (f <$> l) = [].
Proof.
  intros H. induction l as [|a l IH]; [reflexivity|].
  rewrite fmap_cons. cbn [List.filter]. by rewrite H.
Qed.

Lemma filter_notice_all {A : Type} (p : Legacy.Notice → bool)
  (f : A → Legacy.Notice) (l : list A) :
  (∀ a, p (f a) = true) → List.filter p (f <$> l) = f <$> l.
Proof.
  intros H. induction l as [|a l IH]; [reflexivity|].
  rewrite fmap_cons. cbn [List.filter]. by rewrite H, IH.
Qed.

(** The notices of one kind among those a list of deliveries hands to a
    socket, when no delivery of the list is of that kind. *)
Lemma noticed_kind_none (p : Legacy.Notice → bool) (x : nat)
  (out : list Legacy.WsNotice) :
  (∀ d, d ∈ out → p d.2 = false) →
  List.filter p (Legacy.noticed x out) = [].
Proof.
  unfold Legacy.noticed. induction out as [|d out IH]; intros H; [reflexivity|].
  cbn [List.filter].
  assert (IH' : List.filter p (Legacy.noticed x out) = []).
  { apply IH. intros e He. apply H. by right. }
  unfold Legacy.noticed in IH'.
  destruct (fst d =? x)%nat; [|exact IH'].
  rewrite fmap_cons. cbn [List.filter].
  rewrite (H d) by (left; reflexivity). exact IH'.
Qed.

Lemma isOpen_alter (w : Legacy.WsWorld) (ws client : nat) (name : string)
  (r : gmap string (list nat)) :
  Legacy.isOpen
    (Legacy.mkWsWorld
       (alter (λ s, Legacy.mkWebSocket (Some name) (Legacy.readyState s)) ws
          (Legacy.sockets w)) r) client
  = Legacy.isOpen w client.
Proof.
  unfold Legacy.isOpen; simpl. rewrite lookup_alter.
  destruct (decide (ws = client)) as [->|]; [|reflexivity].
  by destruct (Legacy.sockets w !! client).
Qed.

(** The [refresh-peer] deliveries of a join are all of that kind. *)
Lemma refresh_kind (w1 : Legacy.WsWorld) (room : list nat)
  (names : list string) (d : Legacy.WsNotice) :
  d ∈ flat_map (λ peer1,
        flat_map (λ peer2,
          if negb (String.eqb peer1 peer2) then
            match List.find (Legacy.named w1 peer1) room with
            | Some client1 =>
                if Legacy.isOpen w1 client1
                then [(client1, Legacy.RefreshPeer peer2)] else []
            | None => []
            end
          else []) names) names →
  isWsRefreshPeer d.2 = true.
Proof.
  rewrite list_elem_of_In, in_flat_map. intros (p1 & _ & Hin).
  apply in_flat_map in Hin as (p2 & _ & Hin).
  destruct (negb (String.eqb p1 p2)); [|by destruct Hin].
  destruct (List.find _ room) as [c1|]; [|by destruct Hin].
  destruct (Legacy.isOpen w1 c1); [|by destruct Hin].
  by destruct Hin as [<-|[]].
Qed.

(** X28. In the plain server a join puts the socket at the end of the
    room's list; the joiner is told, in join order, the name of every
    listed socket that has one; every other listed socket that is open
    (listed once) gets one [new-peer]; and no [refresh-peer] goes out
    while fewer than two named members were there. *)
Theorem X28_legacy_join (w : Legacy.WsWorld) (ws : nat)
  (roomId name : string) :
  let old := default [] (Legacy.rooms w !! roomId) in
  let w1 := (Legacy.caseJoin w ws roomId name).1.1 in
  let out := (Legacy.caseJoin w ws roomId name).2 in
  Legacy.rooms w1 !! roomId = Some (old ++ [ws])
  ∧ List.filter isWsExistingPeer (Legacy.noticed ws out)
    = Legacy.ExistingPeer <$> Legacy.existingNames w old
  ∧ (NoDup old →
     ∀ client, client ∈ old → client ≠ ws →
               Legacy.isOpen w client = true →
               List.filter isWsNewPeer (Legacy.noticed client out)
               = [Legacy.NewPeer name])
  ∧ ((length (Legacy.existingNames w old) < 2)%nat →
     ∀ x, List.filter isWsRefreshPeer (Legacy.noticed x out) = []).
Proof.
  cbn zeta. unfold Legacy.caseJoin. cbn [fst snd Legacy.rooms].
  set (old := default [] (Legacy.rooms w !! roomId)).
  set (names := Legacy.existingNames w old).
  set (w1 := Legacy.mkWsWorld _ _).
  set (refresh := if (2 <=? length names)%nat then _ else []).
  assert (Hrefresh : ∀ d, d ∈ refresh → isWsRefreshPeer d.2 = true).
  { subst refresh. intros d. destruct (2 <=? length names)%nat.
    - apply refresh_kind.
    - intros H. by apply elem_of_nil in H. }
  split; [apply lookup_insert_eq|]. split; [|split].
  - rewrite !noticed_app, !List.filter_app.
    rewrite noticed_to_one, Nat.eqb_refl.
    rewrite filter_notice_all by reflexivity.
    rewrite (noticed_kind_none isWsExistingPeer ws (_ <$> _)).
    + rewrite (noticed_kind_none isWsExistingPeer ws refresh).
      * by rewrite !app_nil_r.
      * intros d Hd. apply Hrefresh in Hd. by destruct d.2.
    + intros d Hd. apply list_elem_of_fmap in Hd as (cl & -> & _).
      reflexivity.
  - intros Hnd client Hin Hne Hopen.
    rewrite !noticed_app, !List.filter_app.
    rewrite noticed_to_one.
    destruct (Nat.eqb_spec ws client) as [->|_]; [done|]. cbn [List.filter].
    rewrite (noticed_kind_none isWsNewPeer client refresh).
    + rewrite app_nil_r. cbn [app].
      rewrite Nat.eqb_refl. cbn [negb andb]. rewrite app_nil_r.
      rewrite noticed_fanout by by apply NoDup_list_filter.
      rewrite bool_decide_eq_true_2; [reflexivity|].
      apply list_elem_of_In, List.filter_In. split; [by apply list_elem_of_In|].
      subst w1. rewrite isOpen_alter, Hopen.
      by destruct (Nat.eqb_spec client ws).
    + intros d Hd. apply Hrefresh in Hd. by destruct d.2.
  - intros Hlen x. rewrite !noticed_app, !List.filter_app.
    rewrite noticed_to_one.
    assert (E : refresh = []).
    { subst refresh. by destruct (Nat.leb_spec 2 (length names)); [lia|]. }
    rewrite E. rewrite (noticed_kind_none isWsRefreshPeer x (_ <$> _)).
    + destruct (ws =? x)%nat; [|reflexivity].
      by rewrite filter_notice_none.
    + intros d Hd. apply list_elem_of_fmap in Hd as (cl & -> & _).
      reflexivity.
Qed.

Lemma X28_witness :
  List.filter isWsNewPeer
    (Legacy.noticed 1 (Legacy.caseJoin lw_two 3 "r" "cy").2)
  = [Legacy.NewPeer "cy"].
Proof.
  destruct (X28_legacy_join lw_two 3 "r" "cy") as (_ & _ & H & _).
  apply H.
  - apply NoDup_cons. split; [|apply NoDup_singleton].
    rewrite list_elem_of_singleton. discriminate.
  - left.
  - discriminate.
  - reflexivity.
Defined.

(** X29. In the plain server the close of a connection whose room is
    listed takes every entry of the socket out of the room's list, deletes
    the room when the list is empty, and hands one [peer-left] to every
    other listed socket that is open (listed once); but a connection that
    joined under the empty name is left in the list: its close changes
    nothing. *)
Theorem X29_legacy_close (w : Legacy.WsWorld) (c : Legacy.WsConn)
  (l : list nat) :
  Legacy.rooms w !! Legacy.wsRoom c = Some l →
  let l' := List.filter (λ x, negb (x =? Legacy.connWs c)%nat) l in
  (Legacy.wsName c = EmptyString → Legacy.onClose w c = (w, []))
  ∧ (Legacy.wsName c ≠ EmptyString →
     let w' := (Legacy.onClose w c).1 in
     let out := (Legacy.onClose w c).2 in
     Legacy.rooms w' !! Legacy.wsRoom c
     = match l' with [] => None | _ => Some l' end
     ∧ (∀ r, r ≠ Legacy.wsRoom c →
             Legacy.rooms w' !! r = Legacy.rooms w !! r)
     ∧ Legacy.sockets w' = Legacy.sockets w
     ∧ Legacy.noticed (Legacy.connWs c) out = []
     ∧ (NoDup l →
        ∀ client, client ∈ l → client ≠ Legacy.connWs c →
                  Legacy.isOpen w client = true →
                  Legacy.noticed client out
                  = [Legacy.PeerLeft (Legacy.wsName c)])).
Proof.
  intros Hl. cbn zeta. unfold Legacy.onClose. rewrite Hl. split.
  - intros ->. reflexivity.
  - intros Hn. rewrite (truthy_ne _ Hn). cbn [fst snd Legacy.rooms Legacy.sockets].
    set (l' := List.filter (λ x, negb (x =? Legacy.connWs c)%nat) l).
    assert (Hin' : ∀ x, x ∈ List.filter (Legacy.isOpen w) l'
                        ↔ x ∈ l ∧ x ≠ Legacy.connWs c
                          ∧ Legacy.isOpen w x = true).
    { intros x. subst l'. rewrite !list_elem_of_In, !List.filter_In.
      rewrite negb_true_iff, Nat.eqb_neq. tauto. }
    split; [|split; [|split; [reflexivity|split]]].
    + destruct l' eqn:E; simpl.
      * apply lookup_delete_eq.
      * apply lookup_insert_eq.
    + intros r Hr. destruct (length l' =? 0)%nat.
      * by rewrite lookup_delete_ne, lookup_insert_ne.
      * by rewrite lookup_insert_ne.
    + apply noticed_not_in. intros H. apply Hin' in H as (_ & H & _). done.
    + intros Hnd client Hin Hne Hopen.
      rewrite noticed_fanout
        by (apply NoDup_list_filter; by apply NoDup_list_filter).
      rewrite bool_decide_eq_true_2; [reflexivity|]. by apply Hin'.
Qed.

Lemma X29_witness :
  Legacy.rooms (Legacy.onClose lw_two ann).1 !! "r" = Some [2%nat]
  ∧ Legacy.noticed 2 (Legacy.onClose lw_two ann).2 = [Legacy.PeerLeft "ann"].
Proof.
  destruct (X29_legacy_close lw_two ann [1%nat; 2%nat] eq_refl) as [_ H].
  destruct (H ltac:(discriminate)) as (H1 & _ & _ & _ & H5).
  split; [exact H1|]. apply H5.
  - apply NoDup_cons. split; [|apply NoDup_singleton].
    rewrite list_elem_of_singleton. discriminate.
  - right; left.
  - discriminate.
  - reflexivity.
Defined.
